(** * History and data analysis collaboration system

    A shallow embedding of
    [all_agents_tutorials/multi_agent_collaboration_system.ipynb]:
    the [Agent] class, the five step functions and
    [HistoryDataCollaborationSystem.solve], followed by the properties
    of the orchestration that the specification states.

    The program talks to two things outside itself, the wall clock
    ([time.time()]) and the language model ([llm.invoke]).  Both are
    oracles here: an environment answers each request from the history
    of all earlier requests and answers, and every request is logged.
    The [print] calls only report progress and are left out. *)

From stdpp Require Import list strings.
From Stdlib Require Import ZArith Floats.

Local Open Scope string_scope.
Local Open Scope list_scope.

(** ** Time

    [time.time()] yields seconds as a float and [timeout] is a number.
    [solve] uses two operations on them: the difference
    [time.time() - start_time] and the comparison [... > timeout].
    Nothing else about numbers is needed, so the model is stated over
    any type with these two operations; the one law is that no value
    is greater than itself, as for Python's [>] on numbers. *)

Class Timer (Time : Type) := {
  tsub : Time → Time → Time;
  tgt : Time → Time → bool;
  tgt_irrefl : ∀ t, tgt t t = false
}.

(** Python's [float] is IEEE 754 binary64, and so is [PrimFloat.float]:
    the difference is rounded and [a > b] is [b < a], false when either
    side is not a number.  An [int] timeout below [2^53] compares with
    a float as the float of the same value does. *)
#[export] Program Instance float_Timer : Timer float := {|
  tsub := PrimFloat.sub;
  tgt a b := PrimFloat.ltb b a
|}.
Next Obligation.
  intros t. cbv beta. rewrite ltb_spec. unfold SFltb, SFcompare.
  destruct (Prim2SF t) as [s|s| |s m e]; try reflexivity.
  - destruct s; reflexivity.
  - destruct s; rewrite Z.compare_refl, Pos.compare_cont_refl; reflexivity.
Qed.

(** Whole seconds, for examples that are easy to read. *)
#[export] Program Instance Z_Timer : Timer Z := {|
  tsub := Z.sub;
  tgt := Z.gtb
|}.
Next Obligation. intros t. rewrite Z.gtb_ltb. apply Z.ltb_irrefl. Qed.

(** ** Data *)

(** The three langchain message classes the program builds. *)
Inductive BaseMessage :=
| SystemMessage (content : string)
| HumanMessage (content : string)
| AIMessage (content : string).

(** One entry of [context]: the dict [{"role": ..., "content": ...}].
    Every dict the program creates or reads has exactly these keys. *)
Record Msg := { msg_role : string; msg_content : string }.

(** [Agent.__init__] stores [name], [role] and [skills]; [self.llm] is
    the one module-level [llm], reached through the environment. *)
Record Agent := { name : string; role : string; skills : list string }.

(** Exceptions the program can meet: a failure raised by [llm.invoke],
    carrying its message, and the [IndexError] of [context[-1]] on an
    empty list.  Both are subclasses of [Exception]. *)
Inductive Exception :=
| ServiceFailure (message : string)
| IndexError.

Definition str (e : Exception) : string :=
  match e with
  | ServiceFailure message => message
  | IndexError => "list index out of range"
  end.

(** What one [llm.invoke] call does: it returns a response, of which
    the program reads [.content], or it raises. *)
Inductive Response :=
| Content (text : string)
| Failure (message : string).

(** A Python list object is addressed by its position in the heap. *)
Definition ref := nat.

(** The mixed return type of a step function: the [context] list it
    was given (steps 1 to 4) or a [str] (step 5);
    [isinstance(result, str)] tells them apart. *)
Inductive Result :=
| ResList (context : ref)
| ResStr (s : string).

(** The [return] statement of [solve] that produced the result. *)
Inductive ReturnSite := TimedOut | FinalAnswer | CollaborationError | AfterLoop.

Section Model.
Context {Time : Type} `{Timer Time}.

(** ** The environment and the state *)

Inductive Event :=
| Clock (t : Time)
| Invoke (messages : list BaseMessage) (r : Response).

Record Env := {
  time_time : list Event → Time;
  llm_invoke : list Event → list BaseMessage → Response
}.

(** The log of requests so far, oldest first, and the heap of list
    objects. *)
Record State := { events : list Event; heap : list (list Msg) }.

Inductive Outcome (A : Type) :=
| Return (a : A)
| Raise (e : Exception).
Global Arguments Return {A} a.
Global Arguments Raise {A} e.

Definition M (A : Type) : Type := State → Outcome A * State.

Definition ret {A} (a : A) : M A := λ st, (Return a, st).

Definition raise {A} (e : Exception) : M A := λ st, (Raise e, st).

Definition bind {A B} (m : M A) (k : A → M B) : M B :=
  λ st, match m st with
        | (Return a, st') => k a st'
        | (Raise e, st') => (Raise e, st')
        end.

Notation "'let*' x ':=' m 'in' k" := (bind m (λ x, k))
  (at level 10, x name, m at level 100, k at level 200).

Variable env : Env.

(** [time.time()] *)
Definition now : M Time :=
  λ st, let t := time_time env (events st) in
        (Return t, {| events := events st ++ [Clock t]; heap := heap st |}).

(** [llm.invoke(messages).content] *)
Definition invoke (messages : list BaseMessage) : M string :=
  λ st, let r := llm_invoke env (events st) messages in
        let st' := {| events := events st ++ [Invoke messages r];
                      heap := heap st |} in
        match r with
        | Content text => (Return text, st')
        | Failure message => (Raise (ServiceFailure message), st')
        end.

(** [[]]: a fresh, empty list object. *)
Definition new_list : M ref :=
  λ st, (Return (length (heap st)),
         {| events := events st; heap := heap st ++ [[]] |}).

(** The elements of a list object.  A reference always comes from
    [new_list], so the default is never used by the program. *)
Definition read (l : ref) : M (list Msg) :=
  λ st, (Return (default [] (heap st !! l)), st).

(** [l.append(x)]: the object changes in place. *)
Definition append (l : ref) (x : Msg) : M unit :=
  λ st, (Return tt,
         {| events := events st; heap := alter (λ xs, xs ++ [x]) l (heap st) |}).
(** ** [Agent.process] *)

Definition system_prompt (self : Agent) : string :=
  "You are " +:+ name self +:+ ", a " +:+ role self
  +:+ ". Your skills include: " +:+ String.concat ", " (skills self)
  +:+ ". Respond to the task based on your role and skills.".

(** The loop [for msg in context]: a dict whose role is neither
    ['human'] nor ['ai'] adds nothing. *)
Fixpoint replay (context : list Msg) : list BaseMessage :=
  match context with
  | [] => []
  | msg :: rest =>
      (if String.eqb (msg_role msg) "human" then [HumanMessage (msg_content msg)]
       else if String.eqb (msg_role msg) "ai" then [AIMessage (msg_content msg)]
       else [])
      ++ replay rest
  end.

(** [context] is [None] (the default) or a list object; [if context:]
    is false for [None] and for an empty list. *)
Definition process (self : Agent) (task : string) (context : option ref)
  : M string :=
  let messages := [SystemMessage (system_prompt self)] in
  let* messages :=
    match context with
    | None => ret messages
    | Some c =>
        let* turns := read c in
        match turns with
        | [] => ret messages
        | _ => ret (messages ++ replay turns)
        end
    end in
  let messages := messages ++ [HumanMessage task] in
  let* response := invoke messages in
  ret response.

(** ** The step functions *)

(** [context[-1]["content"]] *)
Definition last_content (context : ref) : M string :=
  let* turns := read context in
  match last turns with
  | Some msg => ret (msg_content msg)
  | None => raise IndexError
  end.

Definition research_historical_context
    (history_agent : Agent) (task : string) (context : ref) : M Result :=
  let history_task :=
    "Provide relevant historical context and information for the following task: "
    +:+ task in
  let* history_result := process history_agent history_task None in
  let* _ := append context
    {| msg_role := "ai"; msg_content := "History Agent: " +:+ history_result |} in
  ret (ResList context).

Definition identify_data_needs
    (data_agent : Agent) (task : string) (context : ref) : M Result :=
  let* historical_context := last_content context in
  let data_need_task :=
    "Based on the historical context, what specific data or statistical information would be helpful to answer the original question? Historical context: "
    +:+ historical_context in
  let* data_need_result := process data_agent data_need_task (Some context) in
  let* _ := append context
    {| msg_role := "ai"; msg_content := "Data Agent: " +:+ data_need_result |} in
  ret (ResList context).

Definition provide_historical_data
    (history_agent : Agent) (task : string) (context : ref) : M Result :=
  let* data_needs := last_content context in
  let data_provision_task :=
    "Based on the data needs identified, provide relevant historical data or statistics. Data needs: "
    +:+ data_needs in
  let* data_provision_result :=
    process history_agent data_provision_task (Some context) in
  let* _ := append context
    {| msg_role := "ai";
       msg_content := "History Agent: " +:+ data_provision_result |} in
  ret (ResList context).

Definition analyze_data
    (data_agent : Agent) (task : string) (context : ref) : M Result :=
  let* historical_data := last_content context in
  let analysis_task :=
    "Analyze the historical data provided and describe any trends or insights relevant to the original task. Historical data: "
    +:+ historical_data in
  let* analysis_result := process data_agent analysis_task (Some context) in
  let* _ := append context
    {| msg_role := "ai"; msg_content := "Data Agent: " +:+ analysis_result |} in
  ret (ResList context).

Definition synthesis_task : string :=
  "Based on all the historical context, data, and analysis, provide a comprehensive answer to the original task.".

Definition synthesize_final_answer
    (history_agent : Agent) (task : string) (context : ref) : M Result :=
  let* final_result := process history_agent synthesis_task (Some context) in
  ret (ResStr final_result).

(** ** [HistoryDataCollaborationSystem] *)

Record HistoryDataCollaborationSystem :=
  { history_agent : Agent; data_agent : Agent }.

(** [__init__] *)
Definition init : HistoryDataCollaborationSystem :=
  {| history_agent :=
       {| name := "Clio"; role := "History Research Specialist";
          skills := ["deep knowledge of historical events";
                     "understanding of historical contexts";
                     "identifying historical trends"] |};
     data_agent :=
       {| name := "Data"; role := "Data Analysis Expert";
          skills := ["interpreting numerical data";
                     "statistical analysis";
                     "data visualization description"] |} |}.

Definition StepFunc : Type := Agent → string → ref → M Result.

Definition steps (self : HistoryDataCollaborationSystem)
  : list (StepFunc * Agent) :=
  [ (research_historical_context, history_agent self);
    (identify_data_needs, data_agent self);
    (provide_historical_data, history_agent self);
    (analyze_data, data_agent self);
    (synthesize_final_answer, history_agent self) ].

Definition timeout_message : string :=
  "Operation timed out. The process took too long to complete.".

Definition error_prefix : string := "Error during collaboration: ".

(** The [for] loop of [solve] over the remaining steps, and the
    statements after it.  The [try] encloses the call of the step
    function only; [context = result] binds the name to the list the
    step returned. *)
Fixpoint for_steps (remaining : list (StepFunc * Agent))
    (task : string) (timeout start_time : Time) (context : ref)
  : M (ReturnSite * string) :=
  match remaining with
  | [] =>
      let* answer := last_content context in
      ret (AfterLoop, answer)
  | (step_func, agent) :: remaining =>
      let* t := now in
      if tgt (tsub t start_time) timeout then ret (TimedOut, timeout_message)
      else λ st,
        match step_func agent task context st with
        | (Return (ResStr s), st') => (Return (FinalAnswer, s), st')
        | (Return (ResList result), st') =>
            for_steps remaining task timeout start_time result st'
        | (Raise e, st') =>
            (Return (CollaborationError, error_prefix +:+ str e), st')
        end
  end.

(** [solve], with the [return] statement that was taken. *)
Definition solve_at (self : HistoryDataCollaborationSystem)
    (task : string) (timeout : Time) : M (ReturnSite * string) :=
  let* start_time := now in
  let* context := new_list in
  for_steps (steps self) task timeout start_time context.

Definition solve (self : HistoryDataCollaborationSystem)
    (task : string) (timeout : Time) : M string :=
  let* r := solve_at self task timeout in
  ret (snd r).
End Model.

Arguments Event Time : clear implicits.
Arguments Env Time : clear implicits.
Arguments State Time : clear implicits.

Notation "'let*' x ':=' m 'in' k" := (bind m (λ x, k))
  (at level 10, x name, m at level 100, k at level 200).

(** ** Observations on the log *)

Section Observations.
Context {Time : Type}.

(** The clock readings in a log, oldest first. *)
Definition readings (tr : list (Event Time)) : list Time :=
  omap (λ e, match e with Clock t => Some t | Invoke _ _ => None end) tr.

(** The [llm.invoke] calls in a log, oldest first. *)
Definition calls (tr : list (Event Time)) : list (list BaseMessage * Response) :=
  omap (λ e, match e with Clock _ => None | Invoke m r => Some (m, r) end) tr.

Definition succeeded (c : list BaseMessage * Response) : bool :=
  match c.2 with Content _ => true | Failure _ => false end.
End Observations.

(** ** Stub environments *)

(** The clock reads [clock] in order and the service answers [script]
    in order, whatever it is sent. *)
Definition scripted (clock : list Z) (script : list Response) : Env Z :=
  {| time_time tr := nth (length (readings tr)) clock 0%Z;
     llm_invoke tr _ := nth (length (calls tr)) script (Content "") |}.

(** A deterministic stub: the service answers [R1 .. R5] in turn, over
    and over, whatever it is sent. *)
Definition stub {Time} (clock : list (Event Time) → Time)
    (R1 R2 R3 R4 R5 : string) : Env Time :=
  {| time_time := clock;
     llm_invoke tr _ :=
       Content (nth (length (calls tr) mod 5) [R1; R2; R3; R4; R5] "") |}.

Definition initial {Time} : State Time := {| events := []; heap := [] |}.

(** ** What a run of [solve] looks like

    These definitions describe, without running the program, the log
    and the transcript that the five fixed steps produce from the
    answers [rs] the service has given so far. *)

Definition turn (label answer : string) : Msg :=
  {| msg_role := "ai"; msg_content := label +:+ answer |}.

(** The turns appended after the answers [rs] of steps 1 to 4. *)
Definition turns (rs : list string) : list Msg :=
  zip_with turn
    ["History Agent: "; "Data Agent: "; "History Agent: "; "Data Agent: "] rs.

(** The message list [process] hands to [llm.invoke] when the
    transcript it iterates over holds [transcript]. *)
Definition sent (self : Agent) (task : string) (transcript : list Msg)
  : list BaseMessage :=
  SystemMessage (system_prompt self) :: replay transcript ++ [HumanMessage task].

Definition last_text (transcript : list Msg) : string :=
  from_option msg_content "" (last transcript).

(** The message list of the call made after the answers [rs]. *)
Definition request (self : HistoryDataCollaborationSystem) (task : string)
    (rs : list string) : list BaseMessage :=
  match rs with
  | [] =>
      sent (history_agent self)
        ("Provide relevant historical context and information for the following task: "
         +:+ task) []
  | [_] =>
      sent (data_agent self)
        ("Based on the historical context, what specific data or statistical information would be helpful to answer the original question? Historical context: "
         +:+ last_text (turns rs)) (turns rs)
  | [_; _] =>
      sent (history_agent self)
        ("Based on the data needs identified, provide relevant historical data or statistics. Data needs: "
         +:+ last_text (turns rs)) (turns rs)
  | [_; _; _] =>
      sent (data_agent self)
        ("Analyze the historical data provided and describe any trends or insights relevant to the original task. Historical data: "
         +:+ last_text (turns rs)) (turns rs)
  | _ => sent (history_agent self) synthesis_task (turns rs)
  end.

(** How a run ends: at a boundary whose reading [t] is past the
    timeout, in a call that fails, or in the answer of step 5. *)
Inductive Ending (Time : Type) :=
| EndTimeout (t : Time)
| EndError (t : Time) (message : string)
| EndFinal (t : Time) (answer : string).
Arguments EndTimeout {Time} t.
Arguments EndError {Time} t message.
Arguments EndFinal {Time} t answer.

Section Runs.
Context {Time : Type} `{Timer Time}.
Variable self : HistoryDataCollaborationSystem.
Variable task : string.

(** The log of the completed steps: a boundary reading and a call
    that answered, for each. [prior] holds the earlier answers. *)
Fixpoint rounds_from (prior : list string) (ts : list Time) (rs : list string)
  : list (Event Time) :=
  match ts, rs with
  | t :: ts, r :: rs =>
      Clock t :: Invoke (request self task prior) (Content r)
      :: rounds_from (prior ++ [r]) ts rs
  | _, _ => []
  end.

Definition rounds : list Time → list string → list (Event Time) :=
  rounds_from [].

Definition ending_events (rs : list string) (e : Ending Time)
  : list (Event Time) :=
  match e with
  | EndTimeout t => [Clock t]
  | EndError t message =>
      [Clock t; Invoke (request self task rs) (Failure message)]
  | EndFinal t answer =>
      [Clock t; Invoke (request self task rs) (Content answer)]
  end.

Definition ending_result (e : Ending Time) : ReturnSite * string :=
  match e with
  | EndTimeout _ => (TimedOut, timeout_message)
  | EndError _ message => (CollaborationError, error_prefix +:+ message)
  | EndFinal _ answer => (FinalAnswer, answer)
  end.

(** Which ending fits after [n] completed steps of a run that
    started at [start]. *)
Definition ending_fits (timeout start : Time) (n : nat) (e : Ending Time)
  : Prop :=
  match e with
  | EndTimeout t => tgt (tsub t start) timeout = true
  | EndError t _ => tgt (tsub t start) timeout = false
  | EndFinal t _ => tgt (tsub t start) timeout = false ∧ n = 4
  end.

(** The events [evs], logged after [tr], are what [env] answers. *)
Fixpoint answers (env : Env Time) (tr evs : list (Event Time)) : Prop :=
  match evs with
  | [] => True
  | Clock t :: evs =>
      t = time_time env tr ∧ answers env (tr ++ [Clock t]) evs
  | Invoke m r :: evs =>
      r = llm_invoke env tr m ∧ answers env (tr ++ [Invoke m r]) evs
  end.
End Runs.

(** The events a computation added to the log. *)
Definition added {Time A} (m : M (Time:=Time) A) (st : State Time)
  : list (Event Time) :=
  drop (length (events st)) (events (m st).2).

(** The transcript of the [solve] run started in [st], read off the
    heap it left: the list object the run allocated. *)
Definition transcript {Time A} (m : M (Time:=Time) A) (st : State Time)
  : list Msg :=
  default [] (heap (m st).2 !! length (heap st)).

(** What [process] iterates over: nothing for [None], else the
    elements of the list object. *)
Definition seen {Time} (context : option ref) (st : State Time) : list Msg :=
  match context with
  | None => []
  | Some c => default [] (heap st !! c)
  end.

Section RunDescription.
Context {Time : Type} `{Timer Time}.
Variable env : Env Time.

(** What a step that calls the service once does to the state: the
    call is logged; an answer goes to [k], which gives the value the
    step returns and the turn it appends to the list [c], if any; a
    failure is raised and the heap stays as it is. *)
Definition call (st : State Time) (c : ref) (messages : list BaseMessage)
    (k : string → Result * option Msg) : Outcome Result * State Time :=
  match llm_invoke env (events st) messages with
  | Content r =>
      (Return (k r).1,
       {| events := events st ++ [Invoke messages (Content r)];
          heap := match (k r).2 with
                  | Some x => alter (λ xs, xs ++ [x]) c (heap st)
                  | None => heap st
                  end |})
  | Failure m =>
      (Raise (ServiceFailure m),
       {| events := events st ++ [Invoke messages (Failure m)];
          heap := heap st |})
  end.

(** The complete description of one run of [solve_at] from [st]:
    [ts] are the boundary readings of the completed steps, [rs]
    their answers and [e] the ending. *)
Record Run (self : HistoryDataCollaborationSystem) (task : string)
    (timeout : Time) (st : State Time)
    (ts : list Time) (rs : list string) (e : Ending Time) : Prop := {
  run_start := time_time env (events st);
  run_events :=
    Clock run_start :: rounds self task ts rs ++ ending_events self task rs e;
  run_lengths : length ts = length rs;
  run_bound : (length rs ≤ 4)%nat;
  run_passed : Forall (λ t, tgt (tsub t run_start) timeout = false) ts;
  run_fits : ending_fits timeout run_start (length rs) e;
  run_answers : answers env (events st) run_events;
  run_solve_at :
    solve_at env self task timeout st
    = (Return (ending_result e),
       {| events := events st ++ run_events; heap := heap st ++ [turns rs] |})
}.
End RunDescription.

(** The calls of the completed steps, as [calls] finds them in
    [rounds_from]. *)
Fixpoint served (self : HistoryDataCollaborationSystem) (task : string)
    (prior rs : list string) : list (list BaseMessage * Response) :=
  match rs with
  | [] => []
  | r :: rs =>
      (request self task prior, Content r) :: served self task (prior ++ [r]) rs
  end.

Definition ending_reading {Time} (e : Ending Time) : Time :=
  match e with
  | EndTimeout t | EndError t _ | EndFinal t _ => t
  end.

Definition ending_calls {Time} (self : HistoryDataCollaborationSystem)
    (task : string) (rs : list string) (e : Ending Time)
  : list (list BaseMessage * Response) :=
  match e with
  | EndTimeout _ => []
  | EndError _ message => [(request self task rs, Failure message)]
  | EndFinal _ answer => [(request self task rs, Content answer)]
  end.

(** The texts of the calls that answered. *)
Definition texts (cs : list (list BaseMessage * Response)) : list string :=
  omap (λ c, match c.2 with Content r => Some r | Failure _ => None end) cs.

(** After the reading that sets [start_time], the clock is read once
    before each call and nowhere else. *)
Fixpoint at_boundaries {Time} (evs : list (Event Time)) : bool :=
  match evs with
  | [] => true
  | [Clock _] => true
  | Clock _ :: Invoke _ _ :: evs => at_boundaries evs
  | _ => false
  end.

(** ** The message mapping of [process], in the words of the spec *)

(** A turn is replayed when its role is ['human'] or ['ai']. *)
Definition speaks (msg : Msg) : bool :=
  String.eqb (msg_role msg) "human" || String.eqb (msg_role msg) "ai".

(** A human turn becomes a human message, an ai turn an ai message. *)
Definition as_message (msg : Msg) : BaseMessage :=
  if String.eqb (msg_role msg) "human" then HumanMessage (msg_content msg)
  else AIMessage (msg_content msg).

(** ** Readings of [solve] that leave the clock out *)

(** Success of every call and a positive timeout are enough for the
    answer of step 5 to come back. *)
Definition answers_when_calls_succeed (env : Env Z)
    (self : HistoryDataCollaborationSystem) (task : string) (timeout : Z)
    (st : State Z) : Prop :=
  task ≠ "" → (0 < timeout)%Z →
  Forall (λ c, succeeded c = true) (calls (added (solve env self task timeout) st)) →
  ∃ m r5,
    calls (added (solve env self task timeout) st) !! 4 = Some (m, Content r5)
    ∧ (solve env self task timeout st).1 = Return r5.

(** The five answers of a full run. *)
Definition five_answers : list Response :=
  [Content "R1"; Content "R2"; Content "R3"; Content "R4"; Content "R5"].

(** The service answers, but the first call takes 400 seconds. *)
Definition slow_service : Env Z := scripted [0; 0; 400]%Z five_answers.

(** Two runs in a row against the stub give ["R5"] and the same four
    turns both times. *)
Definition same_both_times {Time} `{Timer Time} (clock : list (Event Time) → Time)
    (R1 R2 R3 R4 R5 : string) (self : HistoryDataCollaborationSystem)
    (task : string) (timeout : Time) : Prop :=
  let run := solve (stub clock R1 R2 R3 R4 R5) self task timeout in
  let st1 := (run initial).2 in
  (run initial).1 = Return R5 ∧ (run st1).1 = Return R5
  ∧ transcript run initial = turns [R1; R2; R3; R4]
  ∧ transcript run st1 = turns [R1; R2; R3; R4].

(** A clock that stands still during the first run and jumps by 1000
    seconds after the second run has started. *)
Definition jumping_clock (tr : list (Event Z)) : Z :=
  nth (length (readings tr)) [0; 0; 0; 0; 0; 0; 0]%Z 1000%Z.

(** A clock of float readings, as [time.time()] gives them. *)
Definition float_clock (tr : list (Event float)) : float :=
  nth (length (readings tr))
    [1700000000.25; 1700000000.5; 1700000301.5]%float 0%float.

(** A clock that stands still. *)
Definition still_clock (tr : list (Event Z)) : Z := 0%Z.

(** ** Further observations *)

Definition is_system (m : BaseMessage) : bool :=
  match m with
  | SystemMessage _ => true
  | HumanMessage _ | AIMessage _ => false
  end.


(** A state whose one list object is empty, and one with a list left
    by some earlier run. *)
Definition empty_list_state : State Z := {| events := []; heap := [[]] |}.

Definition used_heap_state : State Z :=
  {| events := []; heap := [[turn "History Agent: " "old answer"]] |}.

(** A service whose fifth answer is the text of the timeout message,
    one whose fifth answer looks like an error report, a clock that is
    late at the first check and a service that fails at once. *)
Definition answers_timeout_text : Env Z :=
  scripted []
    [Content "R1"; Content "R2"; Content "R3"; Content "R4";
     Content timeout_message].

Definition answers_error_text : Env Z :=
  scripted []
    [Content "R1"; Content "R2"; Content "R3"; Content "R4";
     Content "Error during collaboration: quota exceeded"].

Definition late_clock : Env Z := scripted [0; 301]%Z [].

Definition fails_at_once : Env Z := scripted [] [Failure "quota exceeded"].

(** * Properties *)

Section Steps.
Context {Time : Type} `{Timer Time}.
Variable env : Env Time.

Lemma process_invoke self task context st :
  process env self task context st
  = invoke env (sent self task (seen context st)) st.
Proof.
  unfold process, bind, read, ret, seen, invoke.
  destruct context as [c|].
  - destruct (default [] (heap st !! c)); cbn [app sent replay];
      by destruct (llm_invoke env _ _).
  - cbn [app sent replay]. by destruct (llm_invoke env _ _).
Qed.

Lemma last_content_last c (st : State Time) T x :
  heap st !! c = Some T → last T = Some x →
  last_content c st = (Return (msg_content x), st).
Proof.
  intros L Lx. unfold last_content, bind, read, ret. by rewrite L; cbn; rewrite Lx.
Qed.

Lemma last_content_empty c (st : State Time) :
  default [] (heap st !! c) = [] →
  last_content c st = (Raise IndexError, st).
Proof.
  intros L. unfold last_content, bind, read, raise. by rewrite L.
Qed.

(** Step 1 replays no turn, whatever [context] holds. *)
Lemma research_historical_context_call agent task c st :
  research_historical_context env agent task c st
  = call env st c
      (sent agent
         ("Provide relevant historical context and information for the following task: "
          +:+ task) [])
      (λ r, (ResList c, Some (turn "History Agent: " r))).
Proof.
  unfold research_historical_context, bind, call.
  rewrite process_invoke. unfold invoke, seen, append, ret.
  by destruct (llm_invoke env _ _).
Qed.

Lemma identify_data_needs_call agent task c st T x :
  heap st !! c = Some T → last T = Some x →
  identify_data_needs env agent task c st
  = call env st c
      (sent agent
         ("Based on the historical context, what specific data or statistical information would be helpful to answer the original question? Historical context: "
          +:+ msg_content x) T)
      (λ r, (ResList c, Some (turn "Data Agent: " r))).
Proof.
  intros L Lx. unfold identify_data_needs, call. unfold bind at 1.
  rewrite (last_content_last _ _ _ _ L Lx). unfold bind.
  rewrite process_invoke. unfold invoke, seen, append, ret. rewrite L.
  by destruct (llm_invoke env _ _).
Qed.

Lemma provide_historical_data_call agent task c st T x :
  heap st !! c = Some T → last T = Some x →
  provide_historical_data env agent task c st
  = call env st c
      (sent agent
         ("Based on the data needs identified, provide relevant historical data or statistics. Data needs: "
          +:+ msg_content x) T)
      (λ r, (ResList c, Some (turn "History Agent: " r))).
Proof.
  intros L Lx. unfold provide_historical_data, call. unfold bind at 1.
  rewrite (last_content_last _ _ _ _ L Lx). unfold bind.
  rewrite process_invoke. unfold invoke, seen, append, ret. rewrite L.
  by destruct (llm_invoke env _ _).
Qed.

Lemma analyze_data_call agent task c st T x :
  heap st !! c = Some T → last T = Some x →
  analyze_data env agent task c st
  = call env st c
      (sent agent
         ("Analyze the historical data provided and describe any trends or insights relevant to the original task. Historical data: "
          +:+ msg_content x) T)
      (λ r, (ResList c, Some (turn "Data Agent: " r))).
Proof.
  intros L Lx. unfold analyze_data, call. unfold bind at 1.
  rewrite (last_content_last _ _ _ _ L Lx). unfold bind.
  rewrite process_invoke. unfold invoke, seen, append, ret. rewrite L.
  by destruct (llm_invoke env _ _).
Qed.

Lemma synthesize_final_answer_call agent task c st :
  synthesize_final_answer env agent task c st
  = call env st c
      (sent agent synthesis_task (default [] (heap st !! c)))
      (λ r, (ResStr r, None)).
Proof.
  unfold synthesize_final_answer, call, bind.
  rewrite process_invoke. unfold invoke, seen, ret.
  by destruct (llm_invoke env _ _).
Qed.

(** Steps 2 to 4 on an empty list stop at [context[-1]], before any
    call. *)
Lemma needs_last_turn (f : Env Time → StepFunc) agent task c st :
  f ∈ [identify_data_needs; provide_historical_data; analyze_data] →
  default [] (heap st !! c) = [] →
  f env agent task c st = (Raise IndexError, st).
Proof.
  intros Hf L. repeat (apply elem_of_cons in Hf as [-> | Hf]);
    [| | | by apply elem_of_nil in Hf].
  - unfold identify_data_needs. unfold bind at 1.
    by rewrite (last_content_empty _ _ L).
  - unfold provide_historical_data. unfold bind at 1.
    by rewrite (last_content_empty _ _ L).
  - unfold analyze_data. unfold bind at 1.
    by rewrite (last_content_empty _ _ L).
Qed.

Lemma added_call st c messages k :
  drop (length (events st)) (events (call env st c messages k).2)
  = [Invoke messages (llm_invoke env (events st) messages)].
Proof.
  unfold call. destruct (llm_invoke env _ _); apply drop_app_length.
Qed.

Lemma read_own (h : list (list Msg)) T : (h ++ [T]) !! length h = Some T.
Proof. by rewrite list_lookup_middle. Qed.

Lemma alter_own (f : list Msg → list Msg) h T :
  alter f (length h) (h ++ [T]) = h ++ [f T].
Proof.
  rewrite alter_app_r_alt by lia. by rewrite Nat.sub_diag.
Qed.
End Steps.

Section Orchestration.
Context {Time : Type} `{Timer Time}.
Variable env : Env Time.

(** One iteration of the [for] loop. *)
Lemma for_steps_cons step_func agent remaining task timeout start context st :
  for_steps env ((step_func, agent) :: remaining) task timeout start context st
  = let t := time_time env (events st) in
    let st1 := {| events := events st ++ [Clock t]; heap := heap st |} in
    if tgt (tsub t start) timeout then (Return (TimedOut, timeout_message), st1)
    else match step_func agent task context st1 with
         | (Return (ResStr s), st') => (Return (FinalAnswer, s), st')
         | (Return (ResList result), st') =>
             for_steps env remaining task timeout start result st'
         | (Raise e, st') =>
             (Return (CollaborationError, error_prefix +:+ str e), st')
         end.
Proof.
  cbn [for_steps]. unfold bind, now. cbn zeta.
  by destruct (tgt _ _).
Qed.

(** A step that never hands a list back to the loop ends it: when such
    a step comes last, whatever the steps before it, the loop returns
    from inside and the statements after it are not reached. *)
Lemma last_step_ends_loop before (step_func : StepFunc) agent task timeout start :
  (∀ a t c st,
     match (step_func a t c st).1 with
     | Return (ResList _) => False
     | Return (ResStr _) | Raise _ => True
     end) →
  ∀ context st,
    match (for_steps env (before ++ [(step_func, agent)]) task timeout start
             context st).1 with
    | Return (AfterLoop, _) | Raise _ => False
    | Return ((TimedOut | FinalAnswer | CollaborationError), _) => True
    end.
Proof.
  intros Ends. induction before as [|[f a] before IH]; intros context st;
    cbn [app]; rewrite for_steps_cons; cbn zeta;
    destruct (tgt _ _); try exact I.
  - specialize (Ends agent task context
                  {| events := events st ++ [Clock (time_time env (events st))];
                     heap := heap st |}).
    by destruct (step_func _ _ _ _) as [[[c|s]|e] st'].
  - destruct (f _ _ _ _) as [[[c|s]|e] st']; try exact I. apply IH.
Qed.

(** The boundary check of the next iteration of the loop in [E]. *)
Ltac boundary E t C :=
  rewrite for_steps_cons in E; cbn [events heap] in E; cbn zeta in E;
  set (t := time_time env _) in E;
  destruct (tgt (tsub t _) _) eqn:C in E.

(** The answer or the failure of the call the step in [E] makes;
    the failure is the second of the two goals. *)
Ltac service E r R :=
  unfold call in E; cbn [events heap] in E;
  destruct (llm_invoke env _ _) as [r|r] eqn:R in E;
  cbn [fst snd] in E; rewrite ?alter_own in E.

Ltac own := first [apply read_own | apply last_snoc].

Ltac closed_run E :=
  split;
  [ reflexivity
  | simpl; lia
  | repeat constructor; assumption
  | simpl; auto
  | cbn [answers rounds rounds_from ending_events app];
    repeat split; solve [reflexivity | symmetry; assumption]
  | rewrite E; do 2 f_equal; rewrite <- !app_assoc; reflexivity ].

Theorem solve_at_run self task timeout st :
  ∃ ts rs e, Run env self task timeout st ts rs e.
Proof.
  pose proof (eq_refl (solve_at env self task timeout st)) as E.
  unfold solve_at at 2 in E.
  unfold bind at 1 in E. unfold now at 1 in E. cbn [events heap] in E.
  unfold bind at 1 in E. unfold new_list at 1 in E. cbn [events heap] in E.
  set (start := time_time env (events st)) in *.
  unfold steps in E.
  boundary E t1 C1.
  { exists [], [], (EndTimeout t1). closed_run E. }
  rewrite research_historical_context_call in E.
  service E r1 R1.
  2:{ exists [], [], (EndError t1 r1). closed_run E. }
  boundary E t2 C2.
  { exists [t1], [r1], (EndTimeout t2). closed_run E. }
  erewrite identify_data_needs_call in E by own.
  service E r2 R2.
  2:{ exists [t1], [r1], (EndError t2 r2). closed_run E. }
  boundary E t3 C3.
  { exists [t1; t2], [r1; r2], (EndTimeout t3). closed_run E. }
  erewrite provide_historical_data_call in E by own.
  service E r3 R3.
  2:{ exists [t1; t2], [r1; r2], (EndError t3 r3). closed_run E. }
  boundary E t4 C4.
  { exists [t1; t2; t3], [r1; r2; r3], (EndTimeout t4). closed_run E. }
  erewrite analyze_data_call in E by own.
  service E r4 R4.
  2:{ exists [t1; t2; t3], [r1; r2; r3], (EndError t4 r4). closed_run E. }
  boundary E t5 C5.
  { exists [t1; t2; t3; t4], [r1; r2; r3; r4], (EndTimeout t5). closed_run E. }
  rewrite synthesize_final_answer_call in E. cbn [events heap] in E.
  rewrite read_own in E.
  service E r5 R5.
  2:{ exists [t1; t2; t3; t4], [r1; r2; r3; r4], (EndError t5 r5). closed_run E. }
  exists [t1; t2; t3; t4], [r1; r2; r3; r4], (EndFinal t5 r5). closed_run E.
Qed.
End Orchestration.

Section RunFacts.
Context {Time : Type} `{Timer Time}.
Variable env : Env Time.
Variable self : HistoryDataCollaborationSystem.
Variable task : string.

Lemma readings_app (l k : list (Event Time)) :
  readings (l ++ k) = readings l ++ readings k.
Proof. apply omap_app. Qed.

Lemma calls_app (l k : list (Event Time)) : calls (l ++ k) = calls l ++ calls k.
Proof. apply omap_app. Qed.

Lemma readings_clock t (l : list (Event Time)) :
  readings (Clock t :: l) = t :: readings l.
Proof. reflexivity. Qed.

Lemma calls_clock t (l : list (Event Time)) : calls (Clock t :: l) = calls l.
Proof. reflexivity. Qed.

Lemma readings_rounds_from prior (ts : list Time) rs :
  length ts = length rs → readings (rounds_from self task prior ts rs) = ts.
Proof.
  revert prior rs. induction ts as [|t ts IH]; intros prior [|r rs] L;
    try discriminate; [reflexivity|].
  cbn. f_equal. apply IH. by injection L.
Qed.

Lemma calls_rounds_from prior (ts : list Time) rs :
  length ts = length rs →
  calls (rounds_from self task prior ts rs) = served self task prior rs.
Proof.
  revert prior rs. induction ts as [|t ts IH]; intros prior [|r rs] L;
    try discriminate; [reflexivity|].
  cbn. f_equal. apply IH. by injection L.
Qed.

Lemma readings_ending rs (e : Ending Time) :
  readings (ending_events self task rs e) = [ending_reading e].
Proof. by destruct e. Qed.

Lemma calls_ending rs (e : Ending Time) :
  calls (ending_events self task rs e) = ending_calls self task rs e.
Proof. by destruct e. Qed.

Lemma length_served prior rs : length (served self task prior rs) = length rs.
Proof.
  revert prior. induction rs as [|r rs IH]; intros prior; [reflexivity|].
  cbn. by rewrite IH.
Qed.

Lemma served_succeeded prior rs :
  Forall (λ c, succeeded c = true) (served self task prior rs).
Proof.
  revert prior. induction rs as [|r rs IH]; intros prior; constructor; auto.
Qed.

Lemma texts_served prior rs : texts (served self task prior rs) = rs.
Proof.
  revert prior. induction rs as [|r rs IH]; intros prior; [reflexivity|].
  cbn. f_equal. apply IH.
Qed.

Lemma texts_app cs ds : texts (cs ++ ds) = texts cs ++ texts ds.
Proof. apply omap_app. Qed.

Lemma turns_take k rs : turns (take k rs) = take k (turns rs).
Proof.
  unfold turns. rewrite zip_with_take. symmetry. apply zip_with_take_l'.
  rewrite length_take. lia.
Qed.

(** Every request replays the turns of the answers before it. *)
Lemma request_sent rs :
  (length rs ≤ 4)%nat →
  ∃ agent prompt, request self task rs = sent agent prompt (turns rs).
Proof.
  intros B. destruct rs as [|r1 [|r2 [|r3 [|r4 [|r5 rs]]]]];
    [..|cbn in B; lia]; unfold request; eauto.
Qed.

Lemma filter_all {A} (P : A → Prop) `{∀ x, Decision (P x)} (l : list A) :
  Forall P l → filter P l = l.
Proof.
  induction 1 as [|x l Px _ IH]; [done|].
  by rewrite filter_cons_True, IH.
Qed.

Lemma served_lookup prior rs k c :
  served self task prior rs !! k = Some c →
  ∃ r, rs !! k = Some r ∧ c = (request self task (prior ++ take k rs), Content r).
Proof.
  revert prior k. induction rs as [|r rs IH]; intros prior k; [done|].
  destruct k as [|k]; cbn.
  - intros [= <-]. exists r. by rewrite app_nil_r.
  - intros L. destruct (IH _ _ L) as (r' & L' & ->).
    exists r'. split; [done|]. by rewrite <- app_assoc.
Qed.

Lemma at_boundaries_rounds_from prior (ts : list Time) rs (evs : list (Event Time)) :
  at_boundaries (rounds_from self task prior ts rs ++ evs) = at_boundaries evs.
Proof.
  revert prior rs. induction ts as [|t ts IH]; intros prior [|r rs];
    try reflexivity.
  cbn. apply IH.
Qed.

Lemma at_boundaries_ending rs (e : Ending Time) :
  at_boundaries (ending_events self task rs e) = true.
Proof. by destruct e. Qed.

Lemma solve_solve_at timeout st :
  solve env self task timeout st
  = (match (solve_at env self task timeout st).1 with
     | Return r => Return r.2
     | Raise e => Raise e
     end,
     (solve_at env self task timeout st).2).
Proof.
  unfold solve, bind, ret.
  by destruct (solve_at env self task timeout st) as [[r|e] st'].
Qed.

Section OneRun.
Variables (timeout : Time) (st : State Time).
Variables (ts : list Time) (rs : list string) (e : Ending Time).
Hypothesis R : Run env self task timeout st ts rs e.

Let start := time_time env (events st).

Lemma run_checks : Forall (λ t, tgt (tsub t start) timeout = false) ts.
Proof. exact (run_passed _ _ _ _ _ _ _ _ R). Qed.

Lemma run_ending : ending_fits timeout start (length rs) e.
Proof. exact (run_fits _ _ _ _ _ _ _ _ R). Qed.

Lemma run_solve :
  solve env self task timeout st
  = (Return (ending_result e).2,
     {| events := events st ++ Clock start :: rounds self task ts rs
                  ++ ending_events self task rs e;
        heap := heap st ++ [turns rs] |}).
Proof. rewrite solve_solve_at. by rewrite (run_solve_at _ _ _ _ _ _ _ _ R). Qed.

Lemma run_added :
  added (solve env self task timeout) st
  = Clock start :: rounds self task ts rs ++ ending_events self task rs e.
Proof.
  unfold added. rewrite run_solve. cbn [snd events].
  apply drop_app_length.
Qed.

Lemma run_readings :
  readings (added (solve env self task timeout) st)
  = start :: ts ++ [ending_reading e].
Proof.
  rewrite run_added, readings_clock. f_equal.
  rewrite readings_app, readings_ending.
  unfold rounds. by rewrite readings_rounds_from by apply R.
Qed.

Lemma run_calls :
  calls (added (solve env self task timeout) st)
  = served self task [] rs ++ ending_calls self task rs e.
Proof.
  rewrite run_added, calls_clock.
  rewrite calls_app, calls_ending.
  unfold rounds. by rewrite calls_rounds_from by apply R.
Qed.

Lemma run_transcript :
  transcript (solve env self task timeout) st = turns rs.
Proof.
  unfold transcript. rewrite run_solve. cbn [snd heap].
  by rewrite read_own.
Qed.

Lemma run_at_boundaries :
  at_boundaries (tail (added (solve env self task timeout) st)) = true.
Proof.
  rewrite run_added. cbn [tail]. unfold rounds.
  rewrite at_boundaries_rounds_from. apply at_boundaries_ending.
Qed.

Lemma length_turns : length (turns rs) = length rs.
Proof.
  pose proof (run_bound _ _ _ _ _ _ _ _ R) as B.
  unfold turns. rewrite length_zip_with. cbn [length]. lia.
Qed.
End OneRun.
End RunFacts.

Section Solve.
Context {Time : Type} `{Timer Time}.
Variable env : Env Time.
Variable self : HistoryDataCollaborationSystem.
Variable task : string.
Variable timeout : Time.
Variable st : State Time.

Let run := solve env self task timeout.
Let start := time_time env (events st).

(** A boundary reading that does not exceed the timeout is followed
    by the call of its step.  Reading number 0 sets [start_time];
    reading number [k] is the check before step [k]. *)
Lemma passed_check_calls k t :
  (0 < k)%nat →
  readings (added run st) !! k = Some t →
  tgt (tsub t start) timeout = false →
  is_Some (calls (added run st) !! (k - 1)).
Proof.
  intros Hk L P.
  destruct (solve_at_run env self task timeout st) as (ts & rs & e & R).
  subst run start. rewrite (run_readings _ _ _ _ _ _ _ _ R) in L.
  rewrite (run_calls _ _ _ _ _ _ _ _ R).
  destruct k as [|k]; [lia|]. cbn in L. replace (S k - 1) with k by lia.
  apply lookup_lt_is_Some. rewrite length_app, length_served.
  apply lookup_app_Some in L as [L | [Hge L]].
  - apply lookup_lt_Some in L. rewrite (run_lengths _ _ _ _ _ _ _ _ R) in L. lia.
  - apply list_lookup_singleton_Some in L as [L <-].
    rewrite (run_lengths _ _ _ _ _ _ _ _ R) in L, Hge.
    pose proof (run_ending _ _ _ _ _ _ _ _ R) as F.
    destruct e; cbn in *; [congruence | lia | lia].
Qed.

(** C6. [solve] is total: for every task, every timeout and every
    behaviour of the clock and of the completion service, failures
    of any call included, it returns a string and raises nothing. *)
Theorem solve_total : ∃ s st', solve env self task timeout st = (Return s, st').
Proof.
  destruct (solve_at_run env self task timeout st) as (ts & rs & e & R).
  rewrite (run_solve _ _ _ _ _ _ _ _ R). eauto.
Qed.

(** C4. If the [i]-th call of the completion service fails, [solve]
    returns "Error during collaboration: " followed by the failure's
    message and nothing else; the run made exactly [i] calls, the
    [i - 1] before the failure all answered, and the failed call is
    the last thing the run did. *)
Theorem failure_short_circuits i m message :
  (0 < i)%nat →
  calls (added run st) !! (i - 1) = Some (m, Failure message) →
  (run st).1 = Return ("Error during collaboration: " +:+ message)
  ∧ length (calls (added run st)) = i
  ∧ Forall (λ c, succeeded c = true) (take (i - 1) (calls (added run st)))
  ∧ last (added run st) = Some (Invoke m (Failure message)).
Proof.
  intros Hi L.
  destruct (solve_at_run env self task timeout st) as (ts & rs & e & R).
  subst run. rewrite (run_calls _ _ _ _ _ _ _ _ R) in *.
  apply lookup_app_Some in L as [L | [Hge L]].
  { apply served_lookup in L as (r & _ & [= _ ?]). }
  rewrite length_served in *.
  destruct e as [t|t message'|t answer]; cbn in L; [done| |].
  2:{ by apply list_lookup_singleton_Some in L as [_ [= _ ?]]. }
  apply list_lookup_singleton_Some in L as [L [= <- <-]].
  assert (i - 1 = length rs) as -> by lia.
  rewrite (run_solve _ _ _ _ _ _ _ _ R), (run_added _ _ _ _ _ _ _ _ R).
  repeat split.
  - rewrite length_app, length_served. cbn. lia.
  - rewrite take_app_length' by (by rewrite length_served).
    apply served_succeeded.
  - cbn [ending_events].
    change (Clock ?a :: ?l ++ [?b; ?c]) with ((Clock a :: l) ++ [b] ++ [c]).
    by rewrite !app_assoc, last_snoc.
Qed.

(** C5. If the reading of the clock at the boundary before step [k]
    is more than [timeout] past the start, [solve] returns the fixed
    timeout string and makes no call for step [k] or any later step:
    the reading is the last thing the run did.  The [k - 1] earlier
    steps ran to completion, each with its call answered and its
    turn appended, and the clock is read at step boundaries only. *)
Theorem timeout_short_circuits k t :
  (0 < k)%nat →
  readings (added run st) !! k = Some t →
  tgt (tsub t start) timeout = true →
  (run st).1
    = Return "Operation timed out. The process took too long to complete."
  ∧ length (calls (added run st)) = k - 1
  ∧ Forall (λ c, succeeded c = true) (calls (added run st))
  ∧ length (transcript run st) = k - 1
  ∧ last (added run st) = Some (Clock t)
  ∧ at_boundaries (tail (added run st)) = true.
Proof.
  intros Hk L P.
  destruct (solve_at_run env self task timeout st) as (ts & rs & e & R).
  subst run start.
  rewrite (run_at_boundaries _ _ _ _ _ _ _ _ R),
    (run_transcript _ _ _ _ _ _ _ _ R), (length_turns _ _ _ _ _ _ _ _ R),
    (run_calls _ _ _ _ _ _ _ _ R).
  rewrite (run_readings _ _ _ _ _ _ _ _ R) in L.
  pose proof (run_lengths _ _ _ _ _ _ _ _ R) as Len.
  destruct k as [|k]; [lia|]. cbn in L. replace (S k - 1) with k by lia.
  apply lookup_app_Some in L as [L | [Hge L]].
  { pose proof (run_checks _ _ _ _ _ _ _ _ R) as Ps.
    rewrite Forall_lookup in Ps. specialize (Ps _ _ L). cbn in Ps.
    congruence. }
  apply list_lookup_singleton_Some in L as [L <-].
  pose proof (run_ending _ _ _ _ _ _ _ _ R) as F.
  destruct e as [t|t message|t answer]; cbn in *;
    [| congruence | destruct F; congruence].
  rewrite (run_solve _ _ _ _ _ _ _ _ R), (run_added _ _ _ _ _ _ _ _ R).
  rewrite app_nil_r, length_served.
  repeat split; try lia.
  - apply served_succeeded.
  - cbn [ending_events].
    change (Clock ?a :: ?l ++ [?b]) with ((Clock a :: l) ++ [b]).
    by rewrite last_snoc.
Qed.

(** C9. The comparison with the timeout is strict: when the elapsed
    time measured at the boundary before step [k] equals the timeout
    exactly, step [k] still runs and calls the service.  With a
    timeout of zero and an elapsed time of zero at the first check
    this is the case [k = 1]: the first call is made. *)
Theorem timeout_comparison_strict k t :
  (0 < k)%nat →
  readings (added run st) !! k = Some t →
  tsub t start = timeout →
  is_Some (calls (added run st) !! (k - 1)).
Proof.
  intros Hk L E. apply (passed_check_calls k t Hk L).
  rewrite E. apply tgt_irrefl.
Qed.

(** C10. The statements after the loop are never reached.  Every run
    of [solve] returns from inside the loop: the timeout string, the
    error string, or the text step 5 obtained from the service.  The
    reason is that [synthesize_final_answer] returns a string or
    raises and never hands a list back: a loop that has it as its last
    step returns from inside whatever steps come before. *)
Theorem solve_returns_inside_loop :
  (∃ site s st',
     solve_at env self task timeout st = (Return (site, s), st')
     ∧ solve env self task timeout st = (Return s, st')
     ∧ (site = TimedOut ∧ s = timeout_message
        ∨ site = CollaborationError
          ∧ (∃ m message, last (calls (added run st)) = Some (m, Failure message)
                          ∧ s = error_prefix +:+ message)
        ∨ site = FinalAnswer
          ∧ ∃ m, calls (added run st) !! 4 = Some (m, Content s)))
  ∧ (∀ agent task' c st0,
       match (synthesize_final_answer env agent task' c st0).1 with
       | Return (ResList _) => False
       | Return (ResStr _) | Raise _ => True
       end)
  ∧ ∀ before agent start' c st0,
      match (for_steps env (before ++ [(synthesize_final_answer env, agent)])
               task timeout start' c st0).1 with
      | Return (AfterLoop, _) | Raise _ => False
      | Return ((TimedOut | FinalAnswer | CollaborationError), _) => True
      end.
Proof.
  assert (∀ agent task' c st0,
            match (synthesize_final_answer env agent task' c st0).1 with
            | Return (ResList _) => False
            | Return (ResStr _) | Raise _ => True
            end) as Str.
  { intros agent task' c st0. rewrite synthesize_final_answer_call. unfold call.
    by destruct (llm_invoke env _ _). }
  split; [|split; [exact Str|]].
  2:{ intros before agent start' c st0. by apply last_step_ends_loop. }
  destruct (solve_at_run env self task timeout st) as (ts & rs & e & R).
  subst run. rewrite (run_calls _ _ _ _ _ _ _ _ R).
  rewrite (run_solve _ _ _ _ _ _ _ _ R), (run_solve_at _ _ _ _ _ _ _ _ R).
  pose proof (run_ending _ _ _ _ _ _ _ _ R) as F.
  destruct e as [t|t message|t answer]; cbn [ending_result ending_calls snd];
    eexists _, _, _; (split; [reflexivity|]); (split; [reflexivity|]).
  - by left.
  - right; left. split; [done|]. eexists _, _. by rewrite last_snoc.
  - right; right. split; [done|]. destruct F as [_ F].
    eexists. apply list_lookup_middle. by rewrite length_served.
Qed.

(** C1, amended.  When every call of the completion service
    succeeds and no boundary check finds the elapsed time above the
    timeout, the run makes its fifth call and [solve] returns the
    text of that call as it is.  The text is not appended: the
    transcript holds the four turns of steps 1 to 4. *)
Theorem solve_returns_synthesis :
  Forall (λ t, tgt (tsub t start) timeout = false)
    (tail (readings (added run st))) →
  Forall (λ c, succeeded c = true) (calls (added run st)) →
  ∃ m r5,
    calls (added run st) !! 4 = Some (m, Content r5)
    ∧ length (calls (added run st)) = 5
    ∧ (run st).1 = Return r5
    ∧ transcript run st = turns (take 4 (texts (calls (added run st))))
    ∧ length (transcript run st) = 4.
Proof.
  intros Checks Calls.
  destruct (solve_at_run env self task timeout st) as (ts & rs & e & R).
  subst run start.
  rewrite (run_transcript _ _ _ _ _ _ _ _ R), (length_turns _ _ _ _ _ _ _ _ R).
  rewrite (run_calls _ _ _ _ _ _ _ _ R) in *.
  rewrite (run_readings _ _ _ _ _ _ _ _ R) in Checks. cbn [tail] in Checks.
  apply Forall_app in Checks as [_ Checks]. rewrite Forall_singleton in Checks.
  apply Forall_app in Calls as [_ Calls].
  pose proof (run_ending _ _ _ _ _ _ _ _ R) as F.
  destruct e as [t|t message|t answer];
    cbn [ending_fits ending_reading ending_calls] in *.
  - congruence.
  - by rewrite Forall_singleton in Calls.
  - destruct F as [_ F]. rewrite (run_solve _ _ _ _ _ _ _ _ R).
    exists (request self task rs), answer.
    rewrite length_app, length_served, texts_app, texts_served.
    rewrite take_app_length' by done.
    repeat split; try done; [|cbn; lia].
    apply list_lookup_middle. by rewrite length_served.
Qed.

(** C2. The transcript only ever grows at its end.  Each of the
    steps 1 to 4, when it returns, hands back the list it was given
    with exactly one turn appended in place and everything else on
    the heap as it was; when it raises it has changed nothing.  Step
    5 changes nothing either way.  So the transcript of a run has
    one turn for each answered call, up to four, and the turns that
    the call number [k + 1] replays are the first [k] turns of the
    transcript the run ends with.  Each of the steps 1 to 4 does
    append: given a list (a non-empty one for steps 2 to 4) it makes
    its call, and when the call is answered it returns the list with
    the answer appended as one turn behind the label of its agent.
    The transcript of a run is the labelled answers of steps 1 to 4,
    and when no boundary check fires and every call is answered it
    holds exactly four turns, the answer of step 5 not among them. *)
Theorem transcript_append_only :
  (∀ (f : Env Time → StepFunc) agent c st0,
     f ∈ [research_historical_context; identify_data_needs;
          provide_historical_data; analyze_data] →
     match f env agent task c st0 with
     | (Return (ResList c'), st1) =>
         c' = c ∧ ∃ x, heap st1 = alter (λ xs, xs ++ [x]) c (heap st0)
     | (Return (ResStr _), _) => False
     | (Raise _, st1) => heap st1 = heap st0
     end)
  ∧ (∀ agent c st0,
       heap (synthesize_final_answer env agent task c st0).2 = heap st0)
  ∧ length (transcript run st)
    = length (texts (calls (added run st))) `min` 4
  ∧ (∀ k m r,
       calls (added run st) !! k = Some (m, r) →
       ∃ agent prompt, m = sent agent prompt (take k (transcript run st)))
  ∧ (∀ (f : Env Time → StepFunc) agent c st0 T,
       f ∈ [research_historical_context; identify_data_needs;
            provide_historical_data; analyze_data] →
       heap st0 !! c = Some T →
       f = research_historical_context ∨ T ≠ [] →
       ∃ messages label,
         label ∈ ["History Agent: "; "Data Agent: "]
         ∧ f env agent task c st0
           = match llm_invoke env (events st0) messages with
             | Content r =>
                 (Return (ResList c),
                  {| events := events st0 ++ [Invoke messages (Content r)];
                     heap := alter (λ xs, xs ++ [turn label r]) c (heap st0) |})
             | Failure message =>
                 (Raise (ServiceFailure message),
                  {| events := events st0 ++ [Invoke messages (Failure message)];
                     heap := heap st0 |})
             end)
  ∧ transcript run st = turns (texts (calls (added run st)))
  ∧ (Forall (λ t, tgt (tsub t start) timeout = false)
       (tail (readings (added run st))) →
     Forall (λ c, succeeded c = true) (calls (added run st)) →
     length (transcript run st) = 4).
Proof.
  split; [|split; [|split; [|split; [|split; [|split]]]]].
  - intros f agent c st0 Hf.
    destruct (default [] (heap st0 !! c)) as [|y T] eqn:L.
    + repeat (apply elem_of_cons in Hf as [-> | Hf]);
        [| | | | by apply elem_of_nil in Hf].
      * rewrite research_historical_context_call. unfold call.
        destruct (llm_invoke env _ _); cbn; by eauto.
      * by rewrite (needs_last_turn env identify_data_needs _ _ _ _ ltac:(repeat constructor) L).
      * by rewrite (needs_last_turn env provide_historical_data _ _ _ _ ltac:(repeat constructor) L).
      * by rewrite (needs_last_turn env analyze_data _ _ _ _ ltac:(repeat constructor) L).
    + destruct (heap st0 !! c) as [T'|] eqn:L'; [|done]. cbn in L. subst T'.
      destruct (last (y :: T)) as [x|] eqn:Lx;
        [|by apply last_None in Lx].
      repeat (apply elem_of_cons in Hf as [-> | Hf]);
        [| | | | by apply elem_of_nil in Hf].
      * rewrite research_historical_context_call. unfold call.
        destruct (llm_invoke env _ _); cbn; by eauto.
      * rewrite (identify_data_needs_call _ _ _ _ _ _ _ L' Lx). unfold call.
        destruct (llm_invoke env _ _); cbn; by eauto.
      * rewrite (provide_historical_data_call _ _ _ _ _ _ _ L' Lx). unfold call.
        destruct (llm_invoke env _ _); cbn; by eauto.
      * rewrite (analyze_data_call _ _ _ _ _ _ _ L' Lx). unfold call.
        destruct (llm_invoke env _ _); cbn; by eauto.
  - intros agent c st0. rewrite synthesize_final_answer_call. unfold call.
    by destruct (llm_invoke env _ _).
  - destruct (solve_at_run env self task timeout st) as (ts & rs & e & R).
    subst run.
    rewrite (run_transcript _ _ _ _ _ _ _ _ R), (length_turns _ _ _ _ _ _ _ _ R).
    rewrite (run_calls _ _ _ _ _ _ _ _ R), texts_app, texts_served, length_app.
    pose proof (run_bound _ _ _ _ _ _ _ _ R).
    pose proof (run_ending _ _ _ _ _ _ _ _ R) as F.
    destruct e; cbn in *; by lia.
  - intros k m r L.
    destruct (solve_at_run env self task timeout st) as (ts & rs & e & R).
    subst run. rewrite (run_transcript _ _ _ _ _ _ _ _ R).
    rewrite (run_calls _ _ _ _ _ _ _ _ R) in L.
    pose proof (run_bound _ _ _ _ _ _ _ _ R) as B.
    rewrite <- turns_take.
    assert (m = request self task (take k rs)) as ->.
    { apply lookup_app_Some in L as [L | [Hge L]].
      - by apply served_lookup in L as (r' & _ & [= -> _]).
      - rewrite length_served in *.
        rewrite take_ge by (apply lookup_lt_Some in L; destruct e; cbn in L; lia).
        destruct e; cbn in L; [done| |];
          by apply list_lookup_singleton_Some in L as [_ [= <- _]]. }
    apply request_sent. rewrite length_take. lia.
  - intros f agent c st0 T Hf L [-> | NE].
    { rewrite research_historical_context_call. unfold call.
      eexists _, "History Agent: ". split; [by repeat constructor|].
      reflexivity. }
    destruct (last T) as [x|] eqn:Lx; [|by apply last_None in Lx].
    repeat (apply elem_of_cons in Hf as [-> | Hf]);
      [| | | | by apply elem_of_nil in Hf].
    + rewrite research_historical_context_call. unfold call.
      eexists _, "History Agent: ". split; [by repeat constructor|].
      reflexivity.
    + rewrite (identify_data_needs_call _ _ _ _ _ _ _ L Lx). unfold call.
      eexists _, "Data Agent: ". split; [by repeat constructor|].
      reflexivity.
    + rewrite (provide_historical_data_call _ _ _ _ _ _ _ L Lx). unfold call.
      eexists _, "History Agent: ". split; [by repeat constructor|].
      reflexivity.
    + rewrite (analyze_data_call _ _ _ _ _ _ _ L Lx). unfold call.
      eexists _, "Data Agent: ". split; [by repeat constructor|].
      reflexivity.
  - destruct (solve_at_run env self task timeout st) as (ts & rs & e & R).
    subst run.
    rewrite (run_transcript _ _ _ _ _ _ _ _ R), (run_calls _ _ _ _ _ _ _ _ R).
    rewrite texts_app, texts_served.
    pose proof (run_ending _ _ _ _ _ _ _ _ R) as F.
    destruct e as [t|t message|t answer]; cbn [ending_calls texts omap];
      [by rewrite app_nil_r..|].
    destruct F as [_ F].
    by destruct rs as [|r1 [|r2 [|r3 [|r4 [|r5 rs]]]]].
  - intros Checks Calls.
    destruct (solve_at_run env self task timeout st) as (ts & rs & e & R).
    subst run start.
    rewrite (run_transcript _ _ _ _ _ _ _ _ R), (length_turns _ _ _ _ _ _ _ _ R).
    rewrite (run_calls _ _ _ _ _ _ _ _ R) in Calls.
    rewrite (run_readings _ _ _ _ _ _ _ _ R) in Checks. cbn [tail] in Checks.
    apply Forall_app in Checks as [_ Checks]. rewrite Forall_singleton in Checks.
    apply Forall_app in Calls as [_ Calls].
    pose proof (run_ending _ _ _ _ _ _ _ _ R) as F.
    destruct e as [t|t message|t answer];
      cbn [ending_fits ending_reading ending_calls] in *.
    + congruence.
    + by rewrite Forall_singleton in Calls.
    + by destruct F.
Qed.

(** C8. Every step makes exactly one call of the completion
    service.  Step 1 sends the system message and its prompt and
    replays no turn, whatever the list it is given holds; steps 2 to
    5 replay the whole transcript they are given.  In a run the
    number of calls is the number of boundary checks that passed, a
    run that returns the answer of step 5 has made exactly five
    calls, and each call sends the request built from the answers
    before it. *)
Theorem one_call_per_step :
  (∀ agent c st0, ∃ prompt,
     let messages := [SystemMessage (system_prompt agent); HumanMessage prompt] in
     added (research_historical_context env agent task c) st0
     = [Invoke messages (llm_invoke env (events st0) messages)])
  ∧ (∀ (f : Env Time → StepFunc) agent c st0 T,
       f ∈ [identify_data_needs; provide_historical_data; analyze_data;
            synthesize_final_answer] →
       heap st0 !! c = Some T → T ≠ [] →
       ∃ prompt,
         let messages :=
           SystemMessage (system_prompt agent) :: replay T
           ++ [HumanMessage prompt] in
         added (f env agent task c) st0
         = [Invoke messages (llm_invoke env (events st0) messages)])
  ∧ length (calls (added run st))
    = length (filter (λ t, tgt (tsub t start) timeout = false)
                (tail (readings (added run st))))
  ∧ (∀ s st',
       solve_at env self task timeout st = (Return (FinalAnswer, s), st') →
       length (calls (added run st)) = 5)
  ∧ (∀ k m r,
       calls (added run st) !! k = Some (m, r) →
       m = request self task (take k (texts (calls (added run st))))).
Proof.
  split; [|split; [|split; [|split]]].
  - intros agent c st0. eexists. cbn zeta.
    unfold added. rewrite research_historical_context_call.
    apply added_call.
  - intros f agent c st0 T Hf L NE.
    destruct (last T) as [x|] eqn:Lx; [|by apply last_None in Lx].
    unfold added.
    repeat (apply elem_of_cons in Hf as [-> | Hf]);
      [| | | | by apply elem_of_nil in Hf]; eexists; cbn zeta.
    + rewrite (identify_data_needs_call _ _ _ _ _ _ _ L Lx). apply added_call.
    + rewrite (provide_historical_data_call _ _ _ _ _ _ _ L Lx).
      apply added_call.
    + rewrite (analyze_data_call _ _ _ _ _ _ _ L Lx). apply added_call.
    + rewrite synthesize_final_answer_call, L. apply added_call.
  - destruct (solve_at_run env self task timeout st) as (ts & rs & e & R).
    subst run start.
    rewrite (run_calls _ _ _ _ _ _ _ _ R), (run_readings _ _ _ _ _ _ _ _ R).
    cbn [tail]. rewrite filter_app, !length_app, length_served.
    rewrite (filter_all _ _ (run_checks _ _ _ _ _ _ _ _ R)).
    rewrite (run_lengths _ _ _ _ _ _ _ _ R). f_equal.
    pose proof (run_ending _ _ _ _ _ _ _ _ R) as F.
    destruct e as [t|t message|t answer]; cbn [ending_calls ending_reading].
    + rewrite filter_cons_False; [done|]. cbn in F. congruence.
    + by rewrite filter_cons_True.
    + rewrite filter_cons_True; [done|]. by destruct F.
  - intros s st' E.
    destruct (solve_at_run env self task timeout st) as (ts & rs & e & R).
    subst run. rewrite (run_calls _ _ _ _ _ _ _ _ R), length_app, length_served.
    rewrite (run_solve_at _ _ _ _ _ _ _ _ R) in E.
    pose proof (run_ending _ _ _ _ _ _ _ _ R) as F.
    destruct e as [t|t message|t answer]; try discriminate.
    destruct F as [_ ->]. reflexivity.
  - intros k m r L.
    destruct (solve_at_run env self task timeout st) as (ts & rs & e & R).
    subst run. rewrite (run_calls _ _ _ _ _ _ _ _ R) in *.
    rewrite texts_app, texts_served.
    apply lookup_app_Some in L as [L | [Hge L]].
    + pose proof (lookup_lt_Some _ _ _ L) as Lt. rewrite length_served in Lt.
      rewrite take_app_le by lia.
      by apply served_lookup in L as (r' & _ & [= -> _]).
    + rewrite length_served in *.
      assert (k = length rs) as ->
        by (apply lookup_lt_Some in L; destruct e; cbn in L; lia).
      rewrite take_app_length.
      destruct e; cbn in L; [done| |];
        by apply list_lookup_singleton_Some in L as [_ [= <- _]].
Qed.
End Solve.

Section Process.
Context {Time : Type} `{Timer Time}.
Variable env : Env Time.

Lemma replay_speaking T : replay T = map as_message (List.filter speaks T).
Proof.
  induction T as [|msg T IH]; [reflexivity|].
  cbn [replay List.filter]. unfold speaks at 1.
  destruct (String.eqb (msg_role msg) "human") eqn:Eh; cbn [orb].
  - cbn [map app]. rewrite IH. f_equal. unfold as_message. by rewrite Eh.
  - destruct (String.eqb (msg_role msg) "ai"); cbn [map app]; rewrite IH;
      [|done].
    f_equal. unfold as_message. by rewrite Eh.
Qed.

(** What [process] sends for any context at all: the turns whose role
    is ['human'] or ['ai'] are replayed, in order. *)
Lemma process_sends self task context st :
  let messages :=
    SystemMessage
      ("You are " +:+ name self +:+ ", a " +:+ role self
       +:+ ". Your skills include: " +:+ String.concat ", " (skills self)
       +:+ ". Respond to the task based on your role and skills.")
    :: map as_message (List.filter speaks (seen context st))
    ++ [HumanMessage task] in
  let r := llm_invoke env (events st) messages in
  process env self task context st
  = (match r with
     | Content text => Return text
     | Failure message => Raise (ServiceFailure message)
     end,
     {| events := events st ++ [Invoke messages r]; heap := heap st |}).
Proof.
  cbn zeta. rewrite process_invoke. unfold invoke, sent.
  rewrite replay_speaking. fold (system_prompt self).
  by destruct (llm_invoke env _ _).
Qed.

Lemma filter_speaking T :
  Forall (λ msg, msg_role msg = "human" ∨ msg_role msg = "ai") T →
  List.filter speaks T = T.
Proof.
  induction 1 as [|msg T Role _ IH]; [reflexivity|].
  cbn [List.filter]. rewrite IH.
  assert (speaks msg = true) as ->; [|reflexivity].
  unfold speaks. by destruct Role as [-> | ->].
Qed.

(** C3. For every task and every transcript, given or not, whose turns
    are human or ai turns, [process] makes one call of the completion
    service.  The message list starts with the system message built
    from the template, goes on with every turn of the transcript in
    order, a human turn as a human message and an ai turn as an ai
    message, and ends with the task as a human message.  [process]
    returns the text of the answer as it is. *)
Theorem process_replays_transcript self task context st :
  Forall (λ msg, msg_role msg = "human" ∨ msg_role msg = "ai")
    (seen context st) →
  let messages :=
    SystemMessage
      ("You are " +:+ name self +:+ ", a " +:+ role self
       +:+ ". Your skills include: " +:+ String.concat ", " (skills self)
       +:+ ". Respond to the task based on your role and skills.")
    :: map as_message (seen context st) ++ [HumanMessage task] in
  let r := llm_invoke env (events st) messages in
  process env self task context st
  = (match r with
     | Content text => Return text
     | Failure message => Raise (ServiceFailure message)
     end,
     {| events := events st ++ [Invoke messages r]; heap := heap st |}).
Proof.
  intros Roles. pose proof (process_sends self task context st) as Sends.
  cbn zeta in *. by rewrite (filter_speaking _ Roles) in Sends.
Qed.
End Process.

Section Stub.
Context {Time : Type} `{Timer Time}.
Variable clock : list (Event Time) → Time.
Variables R1 R2 R3 R4 R5 : string.

Let env := stub clock R1 R2 R3 R4 R5.

Lemma stub_cycle n j : n `mod` 5 = 0 → (j < 5)%nat → (n + j) `mod` 5 = j.
Proof.
  intros Hn Hj. rewrite Nat.Div0.add_mod, Hn. cbn [Nat.add].
  rewrite Nat.Div0.mod_mod. by apply Nat.mod_small.
Qed.

(** The [j]-th call logged after [tr] got the next text in turn. *)
Lemma stub_calls tr evs :
  answers env tr evs →
  ∀ j c, calls evs !! j = Some c →
    c.2 = Content (nth ((length (calls tr) + j) `mod` 5) [R1; R2; R3; R4; R5] "").
Proof.
  revert tr. induction evs as [|[t|m r] evs IH]; intros tr A j c L.
  - done.
  - destruct A as [_ A]. specialize (IH _ A j c L).
    by rewrite calls_app, length_app, Nat.add_0_r in IH.
  - destruct A as [-> A]. destruct j as [|j].
    + injection L as <-. by rewrite Nat.add_0_r.
    + specialize (IH _ A j c L).
      rewrite calls_app, length_app in IH. cbn [calls omap length] in IH.
      by replace (length (calls tr) + S j) with (length (calls tr) + 1 + j) by lia.
Qed.

(** One run against the stub, started when the stub is about to
    answer [R1], in which no boundary check fires. *)
Lemma stub_run self task timeout st :
  let run := solve env self task timeout in
  length (calls (events st)) `mod` 5 = 0 →
  Forall (λ t, tgt (tsub t (clock (events st))) timeout = false)
    (tail (readings (added run st))) →
  (run st).1 = Return R5
  ∧ transcript run st = turns [R1; R2; R3; R4]
  ∧ calls (added run st) = served self task [] [R1; R2; R3; R4; R5]
  ∧ events (run st).2 = events st ++ added run st
  ∧ heap (run st).2 = heap st ++ [turns [R1; R2; R3; R4]].
Proof.
  intros run Hn Checks.
  destruct (solve_at_run env self task timeout st) as (ts & rs & e & R).
  subst run.
  pose proof (stub_calls _ _ (run_answers _ _ _ _ _ _ _ _ R)) as Texts.
  rewrite (run_transcript _ _ _ _ _ _ _ _ R).
  rewrite (run_added _ _ _ _ _ _ _ _ R).
  rewrite (run_readings _ _ _ _ _ _ _ _ R) in Checks. cbn [tail] in Checks.
  apply Forall_app in Checks as [_ Checks]. rewrite Forall_singleton in Checks.
  change (calls (run_events _ _ _ _ _ _ _ _ R))
    with (calls (Clock (time_time env (events st))
                 :: rounds self task ts rs ++ ending_events self task rs e))
    in Texts.
  rewrite calls_clock, calls_app, calls_ending in *.
  unfold rounds in *.
  rewrite calls_rounds_from in * by apply R.
  pose proof (run_bound _ _ _ _ _ _ _ _ R) as B.
  pose proof (run_ending _ _ _ _ _ _ _ _ R) as F.
  destruct e as [t|t message|t answer];
    cbn [ending_fits ending_reading ending_calls] in *.
  - change (time_time env (events st)) with (clock (events st)) in F.
    congruence.
  - specialize (Texts (length rs) (request self task rs, Failure message)).
    rewrite list_lookup_middle in Texts by (by rewrite length_served).
    by specialize (Texts eq_refl).
  - destruct F as [_ F].
    destruct rs as [|r1 [|r2 [|r3 [|r4 [|r5 rs]]]]]; try discriminate.
    pose proof (Texts 0 _ eq_refl) as T1. pose proof (Texts 1 _ eq_refl) as T2.
    pose proof (Texts 2 _ eq_refl) as T3. pose proof (Texts 3 _ eq_refl) as T4.
    pose proof (Texts 4 _ eq_refl) as T5.
    rewrite stub_cycle in T1, T2, T3, T4, T5 by (done || lia).
    cbn in T1, T2, T3, T4, T5.
    injection T1 as ->. injection T2 as ->. injection T3 as ->.
    injection T4 as ->. injection T5 as ->.
    rewrite (run_solve _ _ _ _ _ _ _ _ R). done.
Qed.

(** C7, amended.  Against a stub that answers [R1 .. R5] in turn,
    two calls of [solve] in a row on the same system, with the same
    task, in neither of which a boundary check finds the elapsed
    time above the timeout, both return [R5] and both build the
    transcript of the four turns of steps 1 to 4.  Nothing of the
    first run reaches the second: the second run sends the service
    the same five message lists as the first, and its transcript is
    a list object of its own, after which the heap of the first run
    is as it was. *)
Theorem reuse_without_leak self task timeout st :
  let run := solve env self task timeout in
  let st1 := (run st).2 in
  length (calls (events st)) `mod` 5 = 0 →
  Forall (λ t, tgt (tsub t (clock (events st))) timeout = false)
    (tail (readings (added run st))) →
  Forall (λ t, tgt (tsub t (clock (events st1))) timeout = false)
    (tail (readings (added run st1))) →
  (run st).1 = Return R5 ∧ (run st1).1 = Return R5
  ∧ transcript run st
    = [ {| msg_role := "ai"; msg_content := "History Agent: " +:+ R1 |};
        {| msg_role := "ai"; msg_content := "Data Agent: " +:+ R2 |};
        {| msg_role := "ai"; msg_content := "History Agent: " +:+ R3 |};
        {| msg_role := "ai"; msg_content := "Data Agent: " +:+ R4 |} ]
  ∧ transcript run st1 = transcript run st
  ∧ map fst (calls (added run st1)) = map fst (calls (added run st))
  ∧ heap (run st1).2 = heap st1 ++ [transcript run st1].
Proof.
  intros run st1 Hn Checks Checks1.
  destruct (stub_run self task timeout st Hn Checks)
    as (Res & Tr & Calls & Ev & Hp).
  assert (length (calls (events st1)) `mod` 5 = 0) as Hn1.
  { subst st1 run. rewrite Ev, calls_app, length_app, Calls.
    change (length (served _ _ _ _)) with 5.
    by rewrite Nat.Div0.add_mod, Hn. }
  destruct (stub_run self task timeout st1 Hn1 Checks1)
    as (Res1 & Tr1 & Calls1 & Ev1 & Hp1).
  fold run in Res, Tr, Calls, Res1, Tr1, Calls1, Hp1.
  rewrite Res, Res1, Tr, Tr1, Calls, Calls1, Hp1. done.
Qed.
End Stub.

(** * Further properties of the steps and of [process] *)

Section StepEdges.
Context {Time : Type} `{Timer Time}.
Variable env : Env Time.

Lemma added_invoke messages st :
  added (invoke env messages) st
  = [Invoke messages (llm_invoke env (events st) messages)].
Proof.
  unfold added, invoke. destruct (llm_invoke env _ _); apply drop_app_length.
Qed.

Lemma replay_not_system T : Forall (λ m, is_system m = false) (replay T).
Proof.
  induction T as [|msg T IH]; [constructor|].
  cbn [replay]. apply Forall_app. split; [|exact IH].
  destruct (String.eqb (msg_role msg) "human"); [by repeat constructor|].
  destruct (String.eqb (msg_role msg) "ai"); by repeat constructor.
Qed.

(** X1. Steps 2, 3 and 4 read [context[-1]] before anything else: on
    an empty list each raises [IndexError] at once, having made no
    call and changed nothing. *)
Theorem empty_context_raises (f : Env Time → StepFunc) agent task c st :
  f ∈ [identify_data_needs; provide_historical_data; analyze_data] →
  heap st !! c = Some [] →
  f env agent task c st = (Raise IndexError, st).
Proof.
  intros Hf L. apply needs_last_turn; [exact Hf|]. by rewrite L.
Qed.

(** X2. The [try] of the loop catches that [IndexError] like a failure
    of the service: when the boundary check passes and the step at
    hand is one of steps 2 to 4 on an empty list, the loop returns
    "Error during collaboration: list index out of range" without a
    call and without running the steps that remain. *)
Theorem loop_reports_index_error (f : Env Time → StepFunc) agent remaining
    task timeout start c st :
  f ∈ [identify_data_needs; provide_historical_data; analyze_data] →
  heap st !! c = Some [] →
  tgt (tsub (time_time env (events st)) start) timeout = false →
  for_steps env ((f env, agent) :: remaining) task timeout start c st
  = (Return (CollaborationError,
             "Error during collaboration: list index out of range"),
     {| events := events st ++ [Clock (time_time env (events st))];
        heap := heap st |}).
Proof.
  intros Hf L P. rewrite for_steps_cons. cbn zeta. rewrite P.
  by rewrite (needs_last_turn env f) by (done || (cbn [heap]; by rewrite L)).
Qed.

(** X3. Step 5 does not read [context[-1]]: on an empty list it still
    makes its one call, with the system message and the fixed prompt
    only, and returns the answer as a string. *)
Theorem synthesize_on_empty_context agent task c st :
  heap st !! c = Some [] →
  let messages :=
    [SystemMessage (system_prompt agent); HumanMessage synthesis_task] in
  let r := llm_invoke env (events st) messages in
  synthesize_final_answer env agent task c st
  = (match r with
     | Content text => Return (ResStr text)
     | Failure message => Raise (ServiceFailure message)
     end,
     {| events := events st ++ [Invoke messages r]; heap := heap st |}).
Proof.
  intros L. cbn zeta. rewrite synthesize_final_answer_call, L. unfold call.
  cbn [default from_option id sent replay app].
  by destruct (llm_invoke env _ _).
Qed.

(** X4. [if context:] treats an empty list like no list: [process]
    with an empty context does exactly what it does with none. *)
Theorem process_none_or_empty self task c st :
  heap st !! c = Some [] →
  process env self task (Some c) st = process env self task None st.
Proof.
  intros L. rewrite !process_invoke. unfold seen. by rewrite L.
Qed.

(** X5. Whatever the context holds, the message list [process] sends
    has exactly one system message, its first: no turn of the context
    is replayed as a system message, also when its role is
    ['system']. *)
Theorem process_one_system_message self task context st :
  ∃ rest r,
    added (process env self task context) st
    = [Invoke (SystemMessage (system_prompt self) :: rest) r]
    ∧ Forall (λ m, is_system m = false) rest.
Proof.
  eexists _, _. split.
  - unfold added. rewrite process_invoke. apply added_invoke.
  - apply Forall_app. split; [apply replay_not_system|by repeat constructor].
Qed.

(** X6. The replay loop works turn by turn: the messages for two
    lists joined are the messages for the first followed by those for
    the second, and a list of turns never gives more messages than it
    has turns. *)
Theorem replay_app T1 T2 :
  replay (T1 ++ T2) = replay T1 ++ replay T2
  ∧ (length (replay T1) ≤ length T1)%nat.
Proof.
  split.
  - induction T1 as [|msg T1 IH]; [reflexivity|].
    cbn [app replay]. by rewrite IH, app_assoc.
  - induction T1 as [|msg T1 IH]; [reflexivity|].
    cbn [replay]. rewrite length_app. cbn [length].
    destruct (String.eqb (msg_role msg) "human"); [cbn; lia|].
    destruct (String.eqb (msg_role msg) "ai"); cbn; lia.
Qed.
End StepEdges.

(** * Further properties of [solve] *)

Section Further.
Context {Time : Type} `{Timer Time}.
Variable env : Env Time.
Variable self : HistoryDataCollaborationSystem.
Variable task : string.
Variable timeout : Time.
Variable st : State Time.

Let run := solve env self task timeout.

(** The call number [k] of a run, in terms of its description. *)
Lemma run_call ts rs e k m r :
  Run env self task timeout st ts rs e →
  calls (added run st) !! k = Some (m, r) →
  m = request self task (take k rs)
  ∧ (k ≤ length rs)%nat
  ∧ take k (texts (calls (added run st))) = take k rs.
Proof.
  intros R L. subst run. rewrite (run_calls _ _ _ _ _ _ _ _ R) in *.
  rewrite texts_app, texts_served.
  apply lookup_app_Some in L as [L | [Hge L]].
  - pose proof (lookup_lt_Some _ _ _ L) as Lt. rewrite length_served in Lt.
    rewrite take_app_le by lia.
    apply served_lookup in L as (r' & _ & [= -> _]). split; [done|]. split; [lia|done].
  - rewrite length_served in *.
    assert (k = length rs) as ->
      by (apply lookup_lt_Some in L; destruct e; cbn in L; lia).
    rewrite take_app_length, take_ge by lia.
    destruct e; cbn in L; [done| |];
      by apply list_lookup_singleton_Some in L as [_ [= <- _]].
Qed.

Lemma turns_full rs more : length rs = 4 → turns (rs ++ more) = turns rs.
Proof.
  intros L. by destruct rs as [|r1 [|r2 [|r3 [|r4 [|r5 rs]]]]].
Qed.

(** X7. A run calls the service at most five times and reads the
    clock at most six times, whatever the service and the clock do:
    nothing is retried.  The clock is read once or twice more often
    than the service is called. *)
Theorem run_bounds :
  (length (calls (added run st)) ≤ 5)%nat
  ∧ (length (readings (added run st)) ≤ 6)%nat
  ∧ (length (calls (added run st)) < length (readings (added run st))
     ≤ length (calls (added run st)) + 2)%nat.
Proof.
  destruct (solve_at_run env self task timeout st) as (ts & rs & e & R).
  subst run.
  rewrite (run_calls _ _ _ _ _ _ _ _ R), (run_readings _ _ _ _ _ _ _ _ R).
  cbn [length]. rewrite !length_app, length_served.
  pose proof (run_bound _ _ _ _ _ _ _ _ R).
  pose proof (run_lengths _ _ _ _ _ _ _ _ R).
  destruct e; cbn [ending_calls length]; lia.
Qed.

(** X8. The steps go to the two agents in turn, the history agent
    first, and what a call replays are ai messages only: the call
    number [k], counted from 0, sends the system message of its agent,
    the first [k] turns of the transcript as ai messages, and one
    human message, the prompt. *)
Theorem call_shape k m r :
  calls (added run st) !! k = Some (m, r) →
  ∃ prompt,
    m = SystemMessage
          (system_prompt
             (if Nat.even k then history_agent self else data_agent self))
        :: map (λ x, AIMessage (msg_content x)) (take k (transcript run st))
        ++ [HumanMessage prompt].
Proof.
  intros L.
  destruct (solve_at_run env self task timeout st) as (ts & rs & e & R).
  destruct (run_call _ _ _ _ _ _ R L) as (-> & Hk & _).
  subst run. rewrite (run_transcript _ _ _ _ _ _ _ _ R), <- turns_take.
  pose proof (run_bound _ _ _ _ _ _ _ _ R) as B.
  assert (length (take k rs) = k) as Len by (rewrite length_take; lia).
  destruct (take k rs) as [|r1 [|r2 [|r3 [|r4 [|r5 rs']]]]];
    cbn [length] in Len; subst k; [..|lia]; eexists; reflexivity.
Qed.

(** X9. Whatever way a run ends, its transcript is the answers the
    service gave to the calls of steps 1 to 4, in order, each as an ai
    turn behind the label of its agent; the answer of step 5 and
    failures leave no turn. *)
Theorem transcript_labelled_answers :
  transcript run st = turns (texts (calls (added run st))).
Proof.
  destruct (solve_at_run env self task timeout st) as (ts & rs & e & R).
  subst run.
  rewrite (run_transcript _ _ _ _ _ _ _ _ R), (run_calls _ _ _ _ _ _ _ _ R).
  rewrite texts_app, texts_served.
  pose proof (run_ending _ _ _ _ _ _ _ _ R) as F.
  destruct e as [t|t message|t answer]; cbn [ending_calls texts omap];
    [by rewrite app_nil_r..|].
  destruct F as [_ F]. symmetry. by apply turns_full.
Qed.


(** X11. The task is sent in the prompt of step 1 and nowhere else:
    the message list of every later call is built from the answers
    before it alone, and is the same whatever the task was. *)
Theorem later_calls_ignore_task task' k m r :
  (0 < k)%nat →
  calls (added run st) !! k = Some (m, r) →
  m = request self task' (take k (texts (calls (added run st)))).
Proof.
  intros Hk L.
  destruct (solve_at_run env self task timeout st) as (ts & rs & e & R).
  destruct (run_call _ _ _ _ _ _ R L) as (-> & Hle & ->).
  assert (length (take k rs) = k) as Len by (rewrite length_take; lia).
  destruct (take k rs) as [|r1 rs']; [cbn in Len; lia|].
  by destruct rs' as [|r2 [|r3 [|r4 rs']]].
Qed.

(** X12. A run changes no context list that was there before it: the
    context lists on the heap after the run are those from before,
    each as it was, followed by the one the run made with
    [context = []], its transcript.  (The heap holds the context
    lists only; the [steps] list of [solve] and the [messages] lists
    of [process] are values of their own and never stored.) *)
Theorem solve_keeps_context_lists :
  heap (run st).2 = heap st ++ [transcript run st].
Proof.
  destruct (solve_at_run env self task timeout st) as (ts & rs & e & R).
  subst run.
  by rewrite (run_transcript _ _ _ _ _ _ _ _ R), (run_solve _ _ _ _ _ _ _ _ R).
Qed.
End Further.

Section Timeouts.
Context {Time : Type} `{Timer Time}.
Variable env : Env Time.

(** The loop under a timeout that allows at least as much: as long as
    the run under [timeout] does not time out, nothing changes. *)
Lemma for_steps_larger_timeout remaining task timeout timeout' start :
  (∀ x, tgt x timeout' = true → tgt x timeout = true) →
  ∀ context st,
    (∀ s, (for_steps env remaining task timeout start context st).1
          ≠ Return (TimedOut, s)) →
    for_steps env remaining task timeout' start context st
    = for_steps env remaining task timeout start context st.
Proof.
  intros Mono. induction remaining as [|[f a] remaining IH];
    intros context st Done; [reflexivity|].
  rewrite !for_steps_cons in *. cbn zeta in *.
  destruct (tgt _ timeout) eqn:P; [by destruct (Done timeout_message)|].
  destruct (tgt _ timeout') eqn:P'; [apply Mono in P'; congruence|].
  destruct (f _ _ _ _) as [[[c|s]|e] st']; try reflexivity.
  by apply IH.
Qed.

(** X14. Allowing more time does not change a run that did not time
    out: if every elapsed time that exceeds [timeout'] also exceeds
    [timeout], and [solve] under [timeout] returns elsewhere than at
    the timeout check, then under [timeout'] it makes the same calls,
    returns the same string and leaves the same state. *)
Theorem larger_timeout_same_run self task timeout timeout' st :
  (∀ x, tgt x timeout' = true → tgt x timeout = true) →
  (∀ s, (solve_at env self task timeout st).1 ≠ Return (TimedOut, s)) →
  solve env self task timeout' st = solve env self task timeout st.
Proof.
  intros Mono Done.
  rewrite !solve_solve_at.
  assert (solve_at env self task timeout' st = solve_at env self task timeout st)
    as ->; [|reflexivity].
  unfold solve_at, bind, now, new_list in *. cbn [events heap] in *.
  by apply for_steps_larger_timeout.
Qed.

(** The loop under a timeout that allows no more: a run that timed
    out still does. *)
Lemma for_steps_smaller_timeout remaining task timeout timeout' start :
  (∀ x, tgt x timeout = true → tgt x timeout' = true) →
  ∀ context st s,
    (for_steps env remaining task timeout start context st).1
    = Return (TimedOut, s) →
    ∃ st',
      for_steps env remaining task timeout' start context st
      = (Return (TimedOut, timeout_message), st').
Proof.
  intros Mono. induction remaining as [|[f a] remaining IH];
    intros context st s Out.
  - cbn [for_steps] in Out. unfold bind, last_content, read, ret, raise in Out.
    cbn in Out. by destruct (last _).
  - rewrite for_steps_cons in *. cbn zeta in *.
    destruct (tgt _ timeout') eqn:P'; [by eexists|].
    destruct (tgt _ timeout) eqn:P; [apply Mono in P; congruence|].
    destruct (f _ _ _ _) as [[[c|s']|e] st']; try discriminate.
    by apply (IH _ _ s).
Qed.

(** X16. Allowing less time cannot rescue a run that timed out: if
    every elapsed time that exceeds [timeout] also exceeds [timeout'],
    and [solve] under [timeout] returns at the timeout check, then
    under [timeout'] it returns the timeout message as well. *)
Theorem smaller_timeout_times_out self task timeout timeout' st s :
  (∀ x, tgt x timeout = true → tgt x timeout' = true) →
  (solve_at env self task timeout st).1 = Return (TimedOut, s) →
  (solve_at env self task timeout' st).1 = Return (TimedOut, timeout_message)
  ∧ (solve env self task timeout' st).1 = Return timeout_message.
Proof.
  intros Mono Out.
  assert ((solve_at env self task timeout' st).1
          = Return (TimedOut, timeout_message)) as E.
  { unfold solve_at, bind, now, new_list in *. cbn [events heap] in *.
    destruct (for_steps_smaller_timeout _ task timeout timeout' _ Mono _ _ _ Out)
      as (st' & ->).
    reflexivity. }
  split; [exact E|]. rewrite solve_solve_at. by rewrite E.
Qed.

(** The boundary check of the next iteration of the loop, in two runs
    that have the same log. *)
Ltac boundary2 E E' t C :=
  rewrite (for_steps_cons env) in E; rewrite (for_steps_cons env) in E';
  cbn [events heap] in E, E'; cbn zeta in E, E';
  set (t := time_time env _) in E, E';
  destruct (tgt (tsub t _) _) eqn:C in E, E'.

Ltac service2 E E' r R :=
  unfold call in E, E'; cbn [events heap] in E, E';
  destruct (llm_invoke env _ _) as [r|r] eqn:R in E, E';
  cbn [fst snd] in E, E'; rewrite ?alter_own in E; rewrite ?alter_own in E'.

Ltac own2 := first [apply read_own | apply last_snoc].

Ltac same E E' :=
  rewrite E, E'; cbn [fst snd events heap];
  rewrite ?length_app; cbn [length]; rewrite ?read_own; done.

(** Two runs of [solve_at] from states with the same log differ in the
    heap they leave and in nothing else. *)
Lemma solve_at_same_log self task timeout tr h h' :
  let a := solve_at env self task timeout {| events := tr; heap := h |} in
  let b := solve_at env self task timeout {| events := tr; heap := h' |} in
  a.1 = b.1 ∧ events a.2 = events b.2
  ∧ heap a.2 !! length h = heap b.2 !! length h'.
Proof.
  cbn zeta.
  pose proof (eq_refl (solve_at env self task timeout {| events := tr; heap := h |}))
    as E.
  pose proof (eq_refl (solve_at env self task timeout {| events := tr; heap := h' |}))
    as E'.
  unfold solve_at at 2 in E. unfold solve_at at 2 in E'.
  unfold bind at 1 in E. unfold bind at 1 in E'.
  unfold now at 1 in E. unfold now at 1 in E'. cbn [events heap] in E, E'.
  unfold bind at 1 in E. unfold bind at 1 in E'.
  unfold new_list at 1 in E. unfold new_list at 1 in E'.
  cbn [events heap] in E, E'.
  set (start := time_time env tr) in *.
  unfold steps in E, E'.
  boundary2 E E' t1 C1; [same E E'|].
  rewrite (research_historical_context_call env) in E.
  rewrite (research_historical_context_call env) in E'.
  service2 E E' r1 R1; [|same E E'].
  boundary2 E E' t2 C2; [same E E'|].
  erewrite (identify_data_needs_call env) in E by own2.
  erewrite (identify_data_needs_call env) in E' by own2.
  service2 E E' r2 R2; [|same E E'].
  boundary2 E E' t3 C3; [same E E'|].
  erewrite (provide_historical_data_call env) in E by own2.
  erewrite (provide_historical_data_call env) in E' by own2.
  service2 E E' r3 R3; [|same E E'].
  boundary2 E E' t4 C4; [same E E'|].
  erewrite (analyze_data_call env) in E by own2.
  erewrite (analyze_data_call env) in E' by own2.
  service2 E E' r4 R4; [|same E E'].
  boundary2 E E' t5 C5; [same E E'|].
  rewrite (synthesize_final_answer_call env) in E.
  rewrite (synthesize_final_answer_call env) in E'. cbn [events heap] in E, E'.
  rewrite read_own in E. rewrite read_own in E'.
  service2 E E' r5 R5; same E E'.
Qed.

(** X13. What is on the heap when [solve] starts has no influence on
    the run: from two states with the same log, [solve] returns the
    same string, makes the same calls with the same messages, reads
    the clock alike and builds the same transcript.  Lists left by
    earlier runs cannot leak into a later one, whatever the service
    and the clock do. *)
Theorem solve_ignores_heap self task timeout st st' :
  events st = events st' →
  (solve env self task timeout st).1 = (solve env self task timeout st').1
  ∧ added (solve env self task timeout) st
    = added (solve env self task timeout) st'
  ∧ transcript (solve env self task timeout) st
    = transcript (solve env self task timeout) st'.
Proof.
  destruct st as [tr h], st' as [tr' h']. cbn [events]. intros <-.
  destruct (solve_at_same_log self task timeout tr h h') as (Res & Ev & Tr).
  unfold added, transcript. rewrite !solve_solve_at. cbn [fst snd events heap].
  by rewrite Res, Ev, Tr.
Qed.
End Timeouts.

(** * The properties at concrete inputs *)

(** C1, as stated, fails when the service is slow: the one call made
    succeeds, the timeout is positive, and no fifth call is made. *)
Lemma slow_service_gets_no_answer :
  ¬ answers_when_calls_succeed slow_service init "task" 300%Z initial.
Proof.
  intros C. destruct C as (m & r5 & L & _).
  - done.
  - lia.
  - vm_compute. repeat constructor.
  - vm_compute in L. discriminate.
Qed.

Example float_clock_times_out :
  (solve (stub float_clock "R1" "R2" "R3" "R4" "R5") init "task" 300%float
     initial).1
  = Return timeout_message.
Proof. reflexivity. Qed.

Example slow_service_times_out :
  (solve slow_service init "task" 300%Z initial).1 = Return timeout_message.
Proof. reflexivity. Qed.

Lemma solve_returns_synthesis_witness :
  let run := solve (scripted [] five_answers) init "task" 300%Z in
  (run initial).1 = Return "R5" ∧ length (transcript run initial) = 4.
Proof.
  intros run.
  destruct (solve_returns_synthesis (scripted [] five_answers) init "task"
              300%Z initial) as (m & r5 & L & _ & Res & _ & Len).
  - vm_compute. repeat constructor.
  - vm_compute. repeat constructor.
  - vm_compute in L. injection L as _ <-. split; [exact Res | exact Len].
Defined.

Lemma transcript_append_only_witness :
  let env := scripted [] five_answers in
  let st0 : State Z := {| events := []; heap := [[turn "History Agent: " "R0"]] |} in
  heap (identify_data_needs env (data_agent init) "task" 0 st0).2
  = [[turn "History Agent: " "R0"; turn "Data Agent: " "R1"]]
  ∧ (∃ agent prompt r,
       calls (added (solve env init "task" 300%Z) initial) !! 2
       = Some (sent agent prompt
                 (take 2 (transcript (solve env init "task" 300%Z) initial)), r))
  ∧ (analyze_data env (data_agent init) "task" 0 st0).1 = Return (ResList 0)
  ∧ length <$> heap (analyze_data env (data_agent init) "task" 0 st0).2 !! 0
    = Some 2
  ∧ length (transcript (solve env init "task" 300%Z) initial) = 4.
Proof.
  intros env st0.
  destruct (transcript_append_only env init "task" 300%Z initial)
    as (Step & _ & _ & Prefix & Answered & _ & Four).
  split; [|split].
  - clear Prefix Answered Four.
    specialize (Step identify_data_needs (data_agent init) 0 st0
                  ltac:(repeat constructor)).
    destruct (identify_data_needs env (data_agent init) "task" 0 st0)
      as [[[c'|s]|e] st1] eqn:E; vm_compute in E; try discriminate.
    by injection E as <- <-.
  - clear Step Answered Four.
    destruct (calls (added (solve env init "task" 300%Z) initial) !! 2)
      as [[m r]|] eqn:L; [|vm_compute in L; discriminate].
    destruct (Prefix 2 m r L) as (agent & prompt & ->).
    by exists agent, prompt, r.
  - clear Step Prefix.
    destruct (Answered analyze_data (data_agent init) 0 st0
                [turn "History Agent: " "R0"])
      as (messages & label & _ & E).
    + repeat constructor.
    + reflexivity.
    + right. discriminate.
    + rewrite E. split; [reflexivity|]. split; [reflexivity|].
      apply Four; vm_compute; repeat constructor.
Defined.

Lemma process_replays_transcript_witness :
  let st0 : State Z :=
    {| events := [];
       heap := [[ {| msg_role := "human"; msg_content := "Which century?" |};
                  {| msg_role := "ai"; msg_content := "The nineteenth." |} ]] |} in
  process (scripted [] five_answers) (history_agent init) "task" (Some 0) st0
  = (Return "R1",
     {| events :=
          [Invoke
             [SystemMessage (system_prompt (history_agent init));
              HumanMessage "Which century?"; AIMessage "The nineteenth.";
              HumanMessage "task"]
             (Content "R1")];
        heap := heap st0 |}).
Proof.
  intros st0.
  rewrite (process_replays_transcript (scripted [] five_answers)
             (history_agent init) "task" (Some 0) st0).
  - reflexivity.
  - cbn. constructor; [by left|]. constructor; [by right|]. constructor.
Defined.

Lemma failure_short_circuits_witness :
  let run :=
    solve (scripted [] [Content "R1"; Content "R2"; Failure "quota exceeded"])
      init "task" 300%Z in
  ∃ m,
    (run initial).1 = Return "Error during collaboration: quota exceeded"
    ∧ length (calls (added run initial)) = 3
    ∧ Forall (λ c, succeeded c = true) (take 2 (calls (added run initial)))
    ∧ last (added run initial) = Some (Invoke m (Failure "quota exceeded")).
Proof.
  intros run. eexists.
  apply (failure_short_circuits
           (scripted [] [Content "R1"; Content "R2"; Failure "quota exceeded"])
           init "task" 300%Z initial 3).
  - lia.
  - reflexivity.
Defined.

Lemma timeout_short_circuits_witness :
  let run := solve (scripted [0; 0; 0; 301]%Z five_answers) init "task" 300%Z in
  (run initial).1
    = Return "Operation timed out. The process took too long to complete."
  ∧ length (calls (added run initial)) = 2.
Proof.
  intros run.
  destruct (timeout_short_circuits (scripted [0; 0; 0; 301]%Z five_answers)
              init "task" 300%Z initial 3 301%Z)
    as (Res & Len & _).
  - lia.
  - reflexivity.
  - reflexivity.
  - split; [exact Res | exact Len].
Defined.

Lemma timeout_comparison_strict_witness :
  is_Some (calls (added (solve (scripted [] five_answers) init "task" 0%Z)
                    initial) !! 0).
Proof.
  apply (timeout_comparison_strict (scripted [] five_answers) init "task" 0%Z
           initial 1 0%Z).
  - lia.
  - reflexivity.
  - reflexivity.
Defined.

(** C7, as stated, fails when the clock jumps during the second run:
    that run times out and builds no transcript. *)
Lemma clock_jump_breaks_reuse :
  ¬ same_both_times jumping_clock "R1" "R2" "R3" "R4" "R5" init "task" 300%Z.
Proof.
  intros (_ & Res & _). vm_compute in Res. discriminate.
Qed.

Lemma reuse_without_leak_witness :
  let run := solve (stub still_clock "R1" "R2" "R3" "R4" "R5") init "task" 300%Z in
  (run initial).1 = Return "R5" ∧ (run (run initial).2).1 = Return "R5"
  ∧ transcript run (run initial).2 = transcript run initial.
Proof.
  intros run.
  destruct (reuse_without_leak still_clock "R1" "R2" "R3" "R4" "R5" init "task"
              300%Z initial) as (Res & Res1 & _ & Tr & _).
  - reflexivity.
  - vm_compute. repeat constructor.
  - vm_compute. repeat constructor.
  - split; [exact Res | split; [exact Res1 | exact Tr]].
Defined.

Lemma one_call_per_step_witness :
  let env := scripted [] five_answers in
  let st0 : State Z := {| events := []; heap := [[turn "History Agent: " "R0"]] |} in
  length (added (analyze_data env (data_agent init) "task" 0) st0) = 1
  ∧ length (calls (added (solve env init "task" 300%Z) initial)) = 5.
Proof.
  intros env st0.
  destruct (one_call_per_step env init "task" 300%Z initial)
    as (_ & Later & _ & Five & _).
  split.
  - destruct (Later analyze_data (data_agent init) 0 st0
                [turn "History Agent: " "R0"]) as (prompt & ->).
    + repeat constructor.
    + reflexivity.
    + discriminate.
    + reflexivity.
  - eapply Five. vm_compute. reflexivity.
Defined.

(** X15. The string [solve] returns does not tell how the run ended:
    for every system and task, a run that ends in the answer of step 5
    can return the very string of a run that timed out, or of a run in
    which a call failed. *)
Theorem result_hides_outcome self task :
  (∃ s,
     (solve_at answers_timeout_text self task 300%Z initial).1
     = Return (FinalAnswer, s)
     ∧ (solve_at late_clock self task 300%Z initial).1 = Return (TimedOut, s))
  ∧ (∃ s,
       (solve_at answers_error_text self task 300%Z initial).1
       = Return (FinalAnswer, s)
       ∧ (solve_at fails_at_once self task 300%Z initial).1
         = Return (CollaborationError, s)).
Proof.
  split; eexists; split; reflexivity.
Qed.

Lemma empty_context_raises_witness :
  analyze_data (scripted [] five_answers) (data_agent init) "task" 0
    empty_list_state
  = (Raise IndexError, empty_list_state).
Proof.
  apply (empty_context_raises (scripted [] five_answers) analyze_data).
  - repeat constructor.
  - reflexivity.
Defined.

Lemma loop_reports_index_error_witness :
  (for_steps (scripted [] five_answers)
     [(identify_data_needs (scripted [] five_answers), data_agent init)]
     "task" 300%Z 0%Z 0 empty_list_state).1
  = Return (CollaborationError,
            "Error during collaboration: list index out of range").
Proof.
  rewrite (loop_reports_index_error (scripted [] five_answers)
             identify_data_needs (data_agent init) [] "task" 300%Z 0%Z 0
             empty_list_state).
  - reflexivity.
  - repeat constructor.
  - reflexivity.
  - reflexivity.
Defined.

Lemma synthesize_on_empty_context_witness :
  (synthesize_final_answer (scripted [] five_answers) (history_agent init)
     "task" 0 empty_list_state).1
  = Return (ResStr "R1").
Proof.
  rewrite (synthesize_on_empty_context (scripted [] five_answers)
             (history_agent init) "task" 0 empty_list_state).
  - reflexivity.
  - reflexivity.
Defined.

Lemma process_none_or_empty_witness :
  process (scripted [] five_answers) (history_agent init) "task" (Some 0)
    empty_list_state
  = process (scripted [] five_answers) (history_agent init) "task" None
      empty_list_state.
Proof.
  apply (process_none_or_empty (scripted [] five_answers)). reflexivity.
Defined.

Lemma call_shape_witness :
  let run := solve (scripted [] five_answers) init "task" 300%Z in
  ∃ m r prompt,
    calls (added run initial) !! 3 = Some (m, r)
    ∧ m = SystemMessage (system_prompt (data_agent init))
          :: map (λ x, AIMessage (msg_content x)) (take 3 (transcript run initial))
          ++ [HumanMessage prompt].
Proof.
  intros run.
  destruct (calls (added run initial) !! 3) as [[m r]|] eqn:L;
    [|vm_compute in L; discriminate].
  destruct (call_shape (scripted [] five_answers) init "task" 300%Z initial
              3 m r L) as (prompt & E).
  exists m, r, prompt. split; [reflexivity | exact E].
Defined.


Lemma later_calls_ignore_task_witness :
  let run := solve (scripted [] five_answers) init "task" 300%Z in
  ∃ m r,
    calls (added run initial) !! 4 = Some (m, r)
    ∧ m = request init "another task" ["R1"; "R2"; "R3"; "R4"].
Proof.
  intros run.
  destruct (calls (added run initial) !! 4) as [[m r]|] eqn:L;
    [|vm_compute in L; discriminate].
  exists m, r. split; [reflexivity|].
  by rewrite (later_calls_ignore_task (scripted [] five_answers) init "task"
                300%Z initial "another task" 4 m r ltac:(lia) L).
Defined.

Lemma solve_ignores_heap_witness :
  (solve (scripted [] five_answers) init "task" 300%Z initial).1
  = (solve (scripted [] five_answers) init "task" 300%Z used_heap_state).1.
Proof.
  apply (solve_ignores_heap (scripted [] five_answers) init "task" 300%Z
           initial used_heap_state).
  reflexivity.
Defined.

Lemma larger_timeout_same_run_witness :
  solve (scripted [] five_answers) init "task" 600%Z initial
  = solve (scripted [] five_answers) init "task" 300%Z initial.
Proof.
  apply (larger_timeout_same_run (scripted [] five_answers) init "task"
           300%Z 600%Z initial).
  - intros x. cbn. rewrite !Z.gtb_ltb, !Z.ltb_lt. lia.
  - intros s. vm_compute. discriminate.
Defined.

Lemma smaller_timeout_times_out_witness :
  (solve late_clock init "task" 100%Z initial).1 = Return timeout_message.
Proof.
  apply (smaller_timeout_times_out late_clock init "task" 300%Z 100%Z initial
           timeout_message).
  - intros x. cbn. rewrite !Z.gtb_ltb, !Z.ltb_lt. lia.
  - reflexivity.
Defined.
